(** * ShellRacingRemote: the packet codec and the BLE session of control.py,
      with the codec copy of the validation tool test.py.

    The development is a shallow embedding.  Python integers are [Z], the
    type [bytes] is [list byte], a dict is an association list in insertion
    order, and the coroutines of [BleController] are functions in a small
    state-and-exception monad over the controller's fields and the trace of
    transport calls.  What the BLE transport answers is given by an
    environment; see [Env]. *)

From Stdlib Require Import ZArith List Strings.String Strings.Ascii Strings.Byte.
From Stdlib Require Import Bool Lia DecimalString.
From Equations Require Import Equations.
Import ListNotations.

(* The unfolding equation of the one recursive loop is proved without
   functional extensionality. *)
Unset Equations With Funext.

Local Open Scope string_scope.
Local Open Scope list_scope.
Local Open Scope Z_scope.

(** ** Python values used by the program *)

Definition bytes := list byte.

(** [data[i]] on a bytes object is an int in [0, 255]. *)
Definition int_of_byte (b : byte) : Z := Z.of_N (Byte.to_N b).

(** One element of the list handed to [bytes(...)]: a [ValueError] ([None])
    unless it is in [range(256)]. *)
Definition byte_of_int (z : Z) : option byte :=
  if z <? 0 then None else Byte.of_N (Z.to_N z).

(** [bytes([z0, z1, ...])]. *)
Fixpoint bytes_of_ints (l : list Z) : option bytes :=
  match l with
  | [] => Some []
  | z :: l' =>
      match byte_of_int z, bytes_of_ints l' with
      | Some b, Some bs => Some (b :: bs)
      | _, _ => None
      end
  end.

(** [data[i]] for [i >= 0]: an [IndexError] ([None]) when out of range. *)
Definition getitem (data : bytes) (i : nat) : option Z :=
  option_map int_of_byte (nth_error data i).

(** [len(data)]. *)
Definition len (data : bytes) : Z := Z.of_nat (List.length data).

Definition hex_digit (n : N) : ascii :=
  match n with
  | 0%N => "0" | 1%N => "1" | 2%N => "2" | 3%N => "3"
  | 4%N => "4" | 5%N => "5" | 6%N => "6" | 7%N => "7"
  | 8%N => "8" | 9%N => "9" | 10%N => "a" | 11%N => "b"
  | 12%N => "c" | 13%N => "d" | 14%N => "e" | _ => "f"
  end%char.

Definition hex_byte (b : byte) : string :=
  let n := Byte.to_N b in
  String (hex_digit (n / 16)) (String (hex_digit (n mod 16)) EmptyString).

(** [data.hex()]: two lower-case digits per byte. *)
Definition hex (data : bytes) : string :=
  String.concat "" (map hex_byte data).

(** [int(b)] for a Python bool. *)
Definition int_of_bool (b : bool) : Z := if b then 1 else 0.

(** The values stored in the dicts of the program. *)
Inductive PyVal : Type :=
| VInt (z : Z)
| VStr (s : string).

(** A dict keeps its keys in insertion order. *)
Definition Dict := list (string * PyVal).

(** [d.get(key)]: [None] when the key is absent. *)
Fixpoint dict_get (d : Dict) (key : string) : option PyVal :=
  match d with
  | [] => None
  | (k, v) :: d' => if String.eqb k key then Some v else dict_get d' key
  end.

Declare Scope option_scope.
Delimit Scope option_scope with opt.

Notation "x <- a ;; b" :=
  (match a with Some x => b | None => None end)
  (at level 61, a at next level, right associativity, only parsing) : option_scope.

(** ** control.py: state and codec *)

Record ControlState : Type := {
  mode : Z;
  throttle : Z;
  steering : Z;
  lights : bool;
  turbo : bool;
  donut : bool;
  battery_pct : option Z;
  last_payload : bytes;
  last_status : Dict;
  last_status_hex : string;
  message : string
}.

(** [ControlState()] with the dataclass defaults. *)
Definition ControlState_default : ControlState := {|
  mode := 1; throttle := 0; steering := 0;
  lights := false; turbo := false; donut := false;
  battery_pct := None; last_payload := [];
  last_status := []; last_status_hex := ""; message := ""
|}.

Definition build_control_payload (state : ControlState) : option bytes :=
  bytes_of_ints
    [ Z.land (mode state) 255;
      if throttle state >? 0 then 1 else 0;
      if throttle state <? 0 then 1 else 0;
      if steering state <? 0 then 1 else 0;
      if steering state >? 0 then 1 else 0;
      int_of_bool (lights state);
      int_of_bool (turbo state);
      int_of_bool (donut state) ].

Definition decode_status_payload (data : bytes) : option Dict :=
  (let length := len data in
   if length =? 1 then
     d0 <- getitem data 0 ;;
     Some [("length", VInt length); ("battery_pct", VInt d0)]
   else if length =? 8 then
     d0 <- getitem data 0 ;;
     d1 <- getitem data 1 ;;
     d2 <- getitem data 2 ;;
     d3 <- getitem data 3 ;;
     d4 <- getitem data 4 ;;
     d5 <- getitem data 5 ;;
     d6 <- getitem data 6 ;;
     d7 <- getitem data 7 ;;
     Some [("length", VInt length);
           ("mode", VInt d0);
           ("forward", VInt d1);
           ("reverse", VInt d2);
           ("left", VInt d3);
           ("right", VInt d4);
           ("lights", VInt d5);
           ("turbo", VInt d6);
           ("donut", VInt d7)]
   else Some [("length", VInt length); ("raw", VStr (hex data))])%opt.

(** ** test.py: the validation tool's copy of the codec *)

Module ValidationTool.

Definition build_control_payload
    (throttle steering : Z) (lights turbo donut : bool) (mode : Z)
  : option bytes :=
  let forward := if throttle >? 0 then 1 else 0 in
  let reverse := if throttle <? 0 then 1 else 0 in
  let turn_left := if steering <? 0 then 1 else 0 in
  let turn_right := if steering >? 0 then 1 else 0 in
  let payload :=
    bytes_of_ints
      [ Z.land mode 255; forward; reverse; turn_left; turn_right;
        int_of_bool lights; int_of_bool turbo; int_of_bool donut ] in
  payload.

Definition decode_status_payload (data : bytes) : option Dict :=
  (let length := len data in
   if length =? 1 then
     d0 <- getitem data 0 ;;
     Some [("length", VInt length); ("battery_pct", VInt d0)]
   else if length =? 8 then
     d0 <- getitem data 0 ;;
     d1 <- getitem data 1 ;;
     d2 <- getitem data 2 ;;
     d3 <- getitem data 3 ;;
     d4 <- getitem data 4 ;;
     d5 <- getitem data 5 ;;
     d6 <- getitem data 6 ;;
     d7 <- getitem data 7 ;;
     Some [("length", VInt length);
           ("mode", VInt d0);
           ("forward", VInt d1);
           ("reverse", VInt d2);
           ("left", VInt d3);
           ("right", VInt d4);
           ("lights", VInt d5);
           ("turbo", VInt d6);
           ("donut", VInt d7)]
   else Some [("length", VInt length); ("raw", VStr (hex data))])%opt.

End ValidationTool.


(** ** asyncio.Queue, as far as the program uses it *)

(** The [Optional[object]] of a queue item. *)
Inductive QData : Type :=
| DNone
| DStr (s : string)
| DInt (z : Z)
| DBytes (b : bytes).

Definition QueueItem : Type := string * QData.

Record Queue : Type := {
  maxsize : Z;
  items : list QueueItem
}.

(** [asyncio.Queue(maxsize)]; [asyncio.Queue()] is [Queue_new 0]. *)
Definition Queue_new (maxsize : Z) : Queue :=
  {| maxsize := maxsize; items := [] |}.

Definition qsize (q : Queue) : Z := Z.of_nat (List.length (items q)).

(** [Queue.full()]: a queue whose [maxsize] is not positive is never full. *)
Definition full (q : Queue) : bool :=
  if maxsize q <=? 0 then false else qsize q >=? maxsize q.

(** [Queue.put_nowait(item)]; [None] is the exception [QueueFull]. *)
Definition put_nowait (q : Queue) (item : QueueItem) : option Queue :=
  if full q then None
  else Some {| maxsize := maxsize q; items := items q ++ [item] |}.

(** ** The BLE transport and the other tasks, as seen by the controller *)

Definition CONTROL_SERVICE_UUID := "0000fff0-0000-1000-8000-00805f9b34fb".
Definition CONTROL_CHARACTERISTIC_UUID := "0000fff1-0000-1000-8000-00805f9b34fb".
Definition STATUS_CHARACTERISTIC_UUID := "0000fff2-0000-1000-8000-00805f9b34fb".
Definition BATTERY_SERVICE_UUID := "0000180f-0000-1000-8000-00805f9b34fb".
Definition BATTERY_CHARACTERISTIC_UUID := "00002a19-0000-1000-8000-00805f9b34fb".

(** The handle [BleakClient(address)]. *)
Inductive BleakClient : Type :=
| BleakClient_at (address : string).

(** The awaited calls on the client. *)
Inductive Call : Type :=
| connect (address : string)
| disconnect
| start_notify (uuid : string)
| stop_notify (uuid : string)
| read_gatt_char (uuid : string)
| write_gatt_char (uuid : string) (payload : bytes) (response : bool).

(** How an awaited transport call ends: it returns (with data, for a read),
    raises an [Exception], or the task is cancelled while suspended in it. *)
Inductive Outcome : Type :=
| Returns (data : bytes)
| Raises (msg : string)
| Cancelled.

(** What the other tasks of the event loop call on the controller. *)
Inductive ApiCall : Type :=
| Call_send_control (payload : bytes)
| Call_request_battery
| Call_stop
| Notify_status (data : bytes)
| Notify_battery (data : bytes).

(** The environment of one controller.  [reply k c] is what the transport
    answers to the call [c] when it is the [k]-th call of the trace.
    [run] is suspended for long in two places, the connection attempt and
    the wait for the stop signal; [during_connect] and [during_wait] are the
    calls the other tasks make on the controller meanwhile, each running to
    its end before the next.  [wait_cancelled] says whether the task of
    [run] is cancelled when the wait does not end by a stop signal. *)
Record Env : Type := {
  reply : nat -> Call -> Outcome;
  during_connect : list ApiCall;
  during_wait : list ApiCall;
  wait_cancelled : bool
}.

(** ** control.py: BleController *)

Record BleController : Type := {
  address : string;
  state : ControlState;
  ui_queue : Queue;
  _client : option BleakClient;
  _status_notify : bool;
  _battery_notify : bool;
  _stop_event : bool;
  _write_lock : bool;
  _pending_payload : option bytes;
  _last_sent_payload : option bytes;
  _stopped : bool
}.

(** [BleController.__init__]. *)
Definition BleController_init
    (address : string) (state : ControlState) (ui_queue : Queue)
  : BleController := {|
  address := address;
  state := state;
  ui_queue := ui_queue;
  _client := None;
  _status_notify := false;
  _battery_notify := false;
  _stop_event := false;
  _write_lock := false;
  _pending_payload := None;
  _last_sent_payload := None;
  _stopped := false
|}.

(** Field assignments. *)
Definition set_battery_pct (v : option Z) (s : ControlState) : ControlState :=
  {| mode := mode s; throttle := throttle s; steering := steering s;
     lights := lights s; turbo := turbo s; donut := donut s;
     battery_pct := v; last_payload := last_payload s;
     last_status := last_status s; last_status_hex := last_status_hex s;
     message := message s |}.

Definition set_last_payload (v : bytes) (s : ControlState) : ControlState :=
  {| mode := mode s; throttle := throttle s; steering := steering s;
     lights := lights s; turbo := turbo s; donut := donut s;
     battery_pct := battery_pct s; last_payload := v;
     last_status := last_status s; last_status_hex := last_status_hex s;
     message := message s |}.

Definition set_last_status (d : Dict) (h : string) (s : ControlState)
  : ControlState :=
  {| mode := mode s; throttle := throttle s; steering := steering s;
     lights := lights s; turbo := turbo s; donut := donut s;
     battery_pct := battery_pct s; last_payload := last_payload s;
     last_status := d; last_status_hex := h;
     message := message s |}.

Definition set_state (v : ControlState) (c : BleController) : BleController :=
  {| address := address c; state := v; ui_queue := ui_queue c;
     _client := _client c; _status_notify := _status_notify c;
     _battery_notify := _battery_notify c; _stop_event := _stop_event c;
     _write_lock := _write_lock c; _pending_payload := _pending_payload c;
     _last_sent_payload := _last_sent_payload c; _stopped := _stopped c |}.

Definition set_ui_queue (v : Queue) (c : BleController) : BleController :=
  {| address := address c; state := state c; ui_queue := v;
     _client := _client c; _status_notify := _status_notify c;
     _battery_notify := _battery_notify c; _stop_event := _stop_event c;
     _write_lock := _write_lock c; _pending_payload := _pending_payload c;
     _last_sent_payload := _last_sent_payload c; _stopped := _stopped c |}.

Definition set_client (v : option BleakClient) (c : BleController)
  : BleController :=
  {| address := address c; state := state c; ui_queue := ui_queue c;
     _client := v; _status_notify := _status_notify c;
     _battery_notify := _battery_notify c; _stop_event := _stop_event c;
     _write_lock := _write_lock c; _pending_payload := _pending_payload c;
     _last_sent_payload := _last_sent_payload c; _stopped := _stopped c |}.

Definition set_status_notify (v : bool) (c : BleController) : BleController :=
  {| address := address c; state := state c; ui_queue := ui_queue c;
     _client := _client c; _status_notify := v;
     _battery_notify := _battery_notify c; _stop_event := _stop_event c;
     _write_lock := _write_lock c; _pending_payload := _pending_payload c;
     _last_sent_payload := _last_sent_payload c; _stopped := _stopped c |}.

Definition set_battery_notify (v : bool) (c : BleController) : BleController :=
  {| address := address c; state := state c; ui_queue := ui_queue c;
     _client := _client c; _status_notify := _status_notify c;
     _battery_notify := v; _stop_event := _stop_event c;
     _write_lock := _write_lock c; _pending_payload := _pending_payload c;
     _last_sent_payload := _last_sent_payload c; _stopped := _stopped c |}.

Definition set_stop_event (v : bool) (c : BleController) : BleController :=
  {| address := address c; state := state c; ui_queue := ui_queue c;
     _client := _client c; _status_notify := _status_notify c;
     _battery_notify := _battery_notify c; _stop_event := v;
     _write_lock := _write_lock c; _pending_payload := _pending_payload c;
     _last_sent_payload := _last_sent_payload c; _stopped := _stopped c |}.

Definition set_write_lock (v : bool) (c : BleController) : BleController :=
  {| address := address c; state := state c; ui_queue := ui_queue c;
     _client := _client c; _status_notify := _status_notify c;
     _battery_notify := _battery_notify c; _stop_event := _stop_event c;
     _write_lock := v; _pending_payload := _pending_payload c;
     _last_sent_payload := _last_sent_payload c; _stopped := _stopped c |}.

Definition set_pending_payload (v : option bytes) (c : BleController)
  : BleController :=
  {| address := address c; state := state c; ui_queue := ui_queue c;
     _client := _client c; _status_notify := _status_notify c;
     _battery_notify := _battery_notify c; _stop_event := _stop_event c;
     _write_lock := _write_lock c; _pending_payload := v;
     _last_sent_payload := _last_sent_payload c; _stopped := _stopped c |}.

Definition set_last_sent_payload (v : option bytes) (c : BleController)
  : BleController :=
  {| address := address c; state := state c; ui_queue := ui_queue c;
     _client := _client c; _status_notify := _status_notify c;
     _battery_notify := _battery_notify c; _stop_event := _stop_event c;
     _write_lock := _write_lock c; _pending_payload := _pending_payload c;
     _last_sent_payload := v; _stopped := _stopped c |}.

Definition set_stopped (v : bool) (c : BleController) : BleController :=
  {| address := address c; state := state c; ui_queue := ui_queue c;
     _client := _client c; _status_notify := _status_notify c;
     _battery_notify := _battery_notify c; _stop_event := _stop_event c;
     _write_lock := _write_lock c; _pending_payload := _pending_payload c;
     _last_sent_payload := _last_sent_payload c; _stopped := v |}.

(** ** The monad of the coroutines *)

(** The controller object together with the transport calls made so far. *)
Record World : Type := {
  self : BleController;
  trace : list Call
}.

Inductive exn : Type :=
| Exception (msg : string)
| CancelledError.

(** A coroutine returns, raises, or stays suspended for ever. *)
Inductive Res (A : Type) : Type :=
| Ret (a : A)
| Raise (e : exn)
| Hang.
Arguments Ret {A} a.
Arguments Raise {A} e.
Arguments Hang {A}.

Definition Task (A : Type) : Type := World -> Res A * World.

Definition ret {A} (a : A) : Task A := fun w => (Ret a, w).

Definition bind {A B} (m : Task A) (f : A -> Task B) : Task B :=
  fun w =>
    match m w with
    | (Ret a, w') => f a w'
    | (Raise e, w') => (Raise e, w')
    | (Hang, w') => (Hang, w')
    end.

Declare Scope task_scope.
Delimit Scope task_scope with task.
Notation "x <- a ;; b" := (bind a (fun x => b))
  (at level 61, a at next level, right associativity) : task_scope.
Notation "a ;; b" := (bind a (fun _ => b))
  (at level 61, right associativity) : task_scope.

(** Read the object; assign to its fields. *)
Definition get_self : Task BleController := fun w => (Ret (self w), w).

Definition assign (f : BleController -> BleController) : Task unit :=
  fun w => (Ret tt, {| self := f (self w); trace := trace w |}).

(** An exception of the pure code ([IndexError], [ValueError]). *)
Definition lift {A} (name : string) (o : option A) : Task A :=
  fun w => match o with
           | Some a => (Ret a, w)
           | None => (Raise (Exception name), w)
           end.

(** [try: body / except Exception as exc: handler exc].  [CancelledError] is
    not an [Exception] and goes through. *)
Definition try_except {A} (body : Task A) (handler : string -> Task A)
  : Task A :=
  fun w =>
    match body w with
    | (Raise (Exception exc), w') => handler exc w'
    | other => other
    end.

(** [try: body / finally: final]; also the exit of an [async with] whose
    [__aexit__] does not suppress the exception. *)
Definition try_finally {A} (body : Task A) (final : Task unit) : Task A :=
  fun w =>
    match body w with
    | (Hang, w') => (Hang, w')
    | (r, w') =>
        match final w' with
        | (Ret _, w'') => (r, w'')
        | (Raise e, w'') => (Raise e, w'')
        | (Hang, w'') => (Hang, w'')
        end
    end.

(** [async with lock: body] on an [asyncio.Lock] nobody else will release. *)
Definition with_write_lock {A} (body : Task A) : Task A :=
  fun w =>
    if _write_lock (self w) then (Hang, w)
    else try_finally body (assign (set_write_lock false))
           {| self := set_write_lock true (self w); trace := trace w |}.

Definition is_some {A} (o : option A) : bool :=
  match o with Some _ => true | None => false end.

Definition is_none {A} (o : option A) : bool := negb (is_some o).

Definition nonempty (data : bytes) : bool :=
  match data with [] => false | _ :: _ => true end.

Fixpoint bytes_eqb (a b : bytes) : bool :=
  match a, b with
  | [], [] => true
  | x :: a', y :: b' => Byte.eqb x y && bytes_eqb a' b'
  | _, _ => false
  end.

(** [payload == other] where [other] is an [Optional[bytes]]. *)
Definition eq_optional (payload : bytes) (other : option bytes) : bool :=
  match other with
  | Some b => bytes_eqb payload b
  | None => false
  end.

(** [int(v)] for the values the program applies it to. *)
Definition py_int (v : PyVal) : option Z :=
  match v with
  | VInt z => Some z
  | VStr _ => None
  end.

(** A value together with the equation that it is this value. *)
Definition inspect {A} (a : A) : {b : A | a = b} := exist _ a eq_refl.

(** The loop of [_write_pending] either goes round again or is left. *)
Inductive LoopCtl : Type :=
| Continue
| Break.

(** The cases of one turn of the drain: the slot, the transport's answer,
    the queue. *)
Ltac drain_cases :=
  match goal with
  | |- context [_pending_payload (self ?w)] =>
      destruct (_pending_payload (self w)); simpl; [|discriminate]
  end;
  intros _;
  match goal with
  | |- context [reply ?e ?k ?c] => destruct (reply e k c); simpl
  end;
  repeat match goal with
         | |- context [put_nowait ?q ?i] => destruct (put_nowait q i); simpl
         end;
  first [discriminate | intros [= <-]; simpl; lia].

Section Controller.

Variable env : Env.

Local Open Scope task_scope.

(** [await client.<call>]: the call is logged and ends as the environment
    says. *)
Definition await (c : Call) : Task bytes :=
  fun w =>
    let w' := {| self := self w; trace := trace w ++ [c] |} in
    match reply env (List.length (trace w)) c with
    | Returns data => (Ret data, w')
    | Raises msg => (Raise (Exception msg), w')
    | Cancelled => (Raise CancelledError, w')
    end.

Definition _queue_ui (item : QueueItem) : Task unit :=
  fun w =>
    match put_nowait (ui_queue (self w)) item with
    | Some q => (Ret tt, {| self := set_ui_queue q (self w); trace := trace w |})
    | None => (Ret tt, w)
    end.

Definition _enable_notifications (client : BleakClient) : Task unit :=
  try_except
    (await (start_notify STATUS_CHARACTERISTIC_UUID) ;;
     assign (set_status_notify true))
    (fun exc => _queue_ui ("warn", DStr ("Status notify failed: " ++ exc))) ;;
  try_except
    (await (start_notify BATTERY_CHARACTERISTIC_UUID) ;;
     assign (set_battery_notify true))
    (fun exc => _queue_ui ("warn", DStr ("Battery notify failed: " ++ exc))).

Definition _disable_notifications : Task unit :=
  s <- get_self ;;
  match _client s with
  | None => ret tt
  | Some client =>
      (if _status_notify s then
         try_finally
           (try_except
              (await (stop_notify STATUS_CHARACTERISTIC_UUID) ;; ret tt)
              (fun _ => ret tt))
           (assign (set_status_notify false))
       else ret tt) ;;
      s <- get_self ;;
      (if _battery_notify s then
         try_finally
           (try_except
              (await (stop_notify BATTERY_CHARACTERISTIC_UUID) ;; ret tt)
              (fun _ => ret tt))
           (assign (set_battery_notify false))
       else ret tt)
  end.

Definition _status_handler (data : bytes) : Task unit :=
  let payload := data in
  decoded <- lift "IndexError" (decode_status_payload payload) ;;
  assign (fun s => set_state (set_last_status decoded (hex payload) (state s)) s) ;;
  _queue_ui ("status", DNone).

Definition _battery_handler (data : bytes) : Task unit :=
  let payload := data in
  decoded <- lift "IndexError" (decode_status_payload payload) ;;
  let battery := dict_get decoded "battery_pct" in
  battery <-
    (if is_none battery && nonempty payload then
       b <- lift "IndexError" (getitem payload 0) ;; ret (Some (VInt b))
     else ret battery) ;;
  match battery with
  | Some v =>
      n <- lift "ValueError" (py_int v) ;;
      assign (fun s => set_state (set_battery_pct (Some n) (state s)) s) ;;
      _queue_ui ("battery", DInt n)
  | None => _queue_ui ("status", DNone)
  end.

Definition _read_battery (client : BleakClient) : Task unit :=
  r <- try_except
         (data <- await (read_gatt_char BATTERY_CHARACTERISTIC_UUID) ;;
          ret (Some data))
         (fun exc =>
            _queue_ui ("warn", DStr ("Initial battery read failed: " ++ exc)) ;;
            ret None) ;;
  match r with
  | None => ret tt
  | Some data =>
      if nonempty data then
        d0 <- lift "IndexError" (getitem data 0) ;;
        assign (fun s => set_state (set_battery_pct (Some d0) (state s)) s) ;;
        _queue_ui ("battery", DInt d0)
      else ret tt
  end.

(** The test of the [while] of [_write_pending]. *)
Definition pending_and_client (w : World) : bool :=
  is_some (_pending_payload (self w)) && is_some (_client (self w)).

(** One turn of its body; [Break] is the [break] after a failed write. *)
Definition write_one : Task LoopCtl :=
  s <- get_self ;;
  match _pending_payload s with
  | None => ret Break
  | Some payload =>
      assign (set_pending_payload None) ;;
      sent <- try_except
                (await (write_gatt_char CONTROL_CHARACTERISTIC_UUID
                          payload false) ;;
                 ret true)
                (fun exc =>
                   _queue_ui ("error", DStr ("ERROR sending command: " ++ exc)) ;;
                   ret false) ;;
      if sent : bool then
        assign (set_last_sent_payload (Some payload)) ;;
        assign (fun s => set_state (set_last_payload payload (state s)) s) ;;
        _queue_ui ("payload", DBytes payload) ;;
        ret Continue
      else ret Break
  end.

(** The number of payloads waiting in the one-slot buffer. *)
Definition slot (w : World) : nat :=
  if is_some (_pending_payload (self w)) then 1%nat else 0%nat.

Equations? write_loop (w : World) : Res unit * World by wf (slot w) lt :=
  write_loop w with inspect (pending_and_client w) := {
    | exist _ false _ => (Ret tt, w)
    | exist _ true Hc with inspect (write_one w) := {
        | exist _ (Ret Continue, w') Hb => write_loop w'
        | exist _ (Ret Break, w') _ => (Ret tt, w')
        | exist _ (Raise e, w') _ => (Raise e, w')
        | exist _ (Hang, w') _ => (Hang, w') } }.
Proof.
  revert Hc Hb.
  unfold pending_and_client, slot, write_one, bind, get_self, assign,
    try_except, await, _queue_ui, ret.
  drain_cases.
Defined.

Definition _write_pending : Task unit :=
  s <- get_self ;;
  if is_none (_client s) then ret tt
  else with_write_lock write_loop.

Definition send_control (payload : bytes) : Task unit :=
  s <- get_self ;;
  if _stopped s then ret tt
  else if eq_optional payload (_last_sent_payload s)
          && is_none (_pending_payload s) then ret tt
  else
    assign (set_pending_payload (Some payload)) ;;
    s <- get_self ;;
    if is_some (_client s) then _write_pending else ret tt.

Definition request_battery : Task unit :=
  s <- get_self ;;
  if _stopped s then ret tt
  else
    match _client s with
    | None =>
        _queue_ui ("message", DStr "Battery read queued; waiting for connection")
    | Some client => _read_battery client
    end.

Definition _send_pending : Task unit :=
  s <- get_self ;;
  if is_some (_pending_payload s) && is_some (_client s)
  then _write_pending else ret tt.

Definition stop : Task unit :=
  s <- get_self ;;
  if _stopped s then ret tt
  else
    assign (set_stopped true) ;;
    assign (set_stop_event true) ;;
    _disable_notifications.

(** A call made by another task while [run] is suspended.  How that call
    ends is the business of its own task; the object is shared. *)
Definition other_task (c : ApiCall) : Task unit :=
  fun w =>
    let m := match c with
             | Call_send_control payload => send_control payload
             | Call_request_battery => request_battery
             | Call_stop => stop
             | Notify_status data => _status_handler data
             | Notify_battery data => _battery_handler data
             end in
    (Ret tt, snd (m w)).

Fixpoint other_tasks (cs : list ApiCall) : Task unit :=
  match cs with
  | [] => ret tt
  | c :: cs' => other_task c ;; other_tasks cs'
  end.

(** [BleakClient(address).__aenter__()]: the connection attempt. *)
Definition aenter (address : string) : Task BleakClient :=
  fun w =>
    let c := connect address in
    let w1 := {| self := self w; trace := trace w ++ [c] |} in
    let w2 := snd (other_tasks (during_connect env) w1) in
    match reply env (List.length (trace w)) c with
    | Returns _ => (Ret (BleakClient_at address), w2)
    | Raises msg => (Raise (Exception msg), w2)
    | Cancelled => (Raise CancelledError, w2)
    end.

(** [async with BleakClient(address) as client: body client]. *)
Definition async_with_client {A} (address : string)
    (body : BleakClient -> Task A) : Task A :=
  client <- aenter address ;;
  try_finally (body client) (await disconnect ;; ret tt).

(** [await self._stop_event.wait()]. *)
Definition stop_event_wait : Task unit :=
  fun w =>
    if _stop_event (self w) then (Ret tt, w)
    else
      let w1 := snd (other_tasks (during_wait env) w) in
      if _stop_event (self w1) then (Ret tt, w1)
      else if wait_cancelled env then (Raise CancelledError, w1)
      else (Hang, w1).

(** The [finally] block of [run]. *)
Definition teardown : Task unit :=
  _disable_notifications ;;
  assign (set_client None) ;;
  _queue_ui ("disconnected", DNone).

(** The body of the [async with] of [run]. *)
Definition session (client : BleakClient) : Task unit :=
  assign (set_client (Some client)) ;;
  _queue_ui ("connected", DNone) ;;
  _enable_notifications client ;;
  _send_pending ;;
  _read_battery client ;;
  stop_event_wait.

(** The [try] of [run] with its two [except] clauses: [CancelledError] is
    raised again, any [Exception] is reported. *)
Definition attempt (address : string) : Task unit :=
  try_except
    (async_with_client address session)
    (fun exc => _queue_ui ("error", DStr ("Connection error: " ++ exc))).

Definition run : Task unit :=
  s <- get_self ;;
  _queue_ui ("message", DStr ("Connecting to " ++ address s ++ "...")) ;;
  try_finally (attempt (address s)) teardown.

End Controller.

(** [PygameApp.__init__]: the queue is [asyncio.Queue()], the controller
    shares the state object and the queue. *)
Definition PygameApp_ui_queue : Queue := Queue_new 0.

Definition PygameApp_ble (address : string) : BleController :=
  BleController_init address ControlState_default PygameApp_ui_queue.


(** ** Vocabulary of the statements *)

(** A controller with an empty trace; the application's controller. *)
Definition world_of (s : BleController) : World := {| self := s; trace := [] |}.

Definition app_world : World := world_of (PygameApp_ble "13:05:AA:05:6D:05").

(** A run of events handed to [_queue_ui] one after the other. *)
Definition queue_all (its : list QueueItem) (w : World) : World :=
  fold_left (fun w it => snd (_queue_ui it w)) its w.

Definition write_call (payload : bytes) : Call :=
  write_gatt_char CONTROL_CHARACTERISTIC_UUID payload false.

Definition battery_read : Call := read_gatt_char BATTERY_CHARACTERISTIC_UUID.

Definition status_stop : Call := stop_notify STATUS_CHARACTERISTIC_UUID.

Definition battery_stop : Call := stop_notify BATTERY_CHARACTERISTIC_UUID.

(** The world in which [payload] has been taken from the slot and handed
    to the transport. *)
Definition taken (payload : bytes) (w : World) : World :=
  {| self := set_pending_payload None (self w);
     trace := trace w ++ [write_call payload] |}.

(** The same, after the write succeeded and was recorded. *)
Definition recorded (payload : bytes) (w : World) : World :=
  {| self := set_state (set_last_payload payload (state (self w)))
               (set_last_sent_payload (Some payload)
                  (set_pending_payload None (self w)));
     trace := trace w ++ [write_call payload] |}.

(** The unsubscribe calls [_disable_notifications] makes on a live client. *)
Definition unsubscribe_calls (s : BleController) : list Call :=
  (if _status_notify s then [status_stop] else []) ++
  (if _battery_notify s then [battery_stop] else []).

(** No task is cancelled while it is suspended in [stop_notify]. *)
Definition unsubscribe_not_cancelled (env : Env) : Prop :=
  forall k uuid, reply env k (stop_notify uuid) <> Cancelled.

Definition no_subscription (s : BleController) : Prop :=
  _status_notify s = false /\ _battery_notify s = false.

(** Without a client there is no subscription: true after [__init__]. *)
Definition dead_is_unsubscribed (w : World) : Prop :=
  _client (self w) = None -> no_subscription (self w).

Definition not_disconnected (it : QueueItem) : Prop := fst it <> "disconnected".

(** The queue keeps its bound and only grows at the tail, by events other
    than ["disconnected"]. *)
Definition queue_ext (w w' : World) : Prop :=
  maxsize (ui_queue (self w')) = maxsize (ui_queue (self w)) /\
  exists evs, items (ui_queue (self w')) = items (ui_queue (self w)) ++ evs /\
              Forall not_disconnected evs.

(** The same, and the client handle is not touched. *)
Definition calm_step (w w' : World) : Prop :=
  queue_ext w w' /\ _client (self w') = _client (self w).

(** The same, and no notification flag is raised. *)
Definition quiet_step (w w' : World) : Prop :=
  calm_step w w' /\
  (_status_notify (self w') = true -> _status_notify (self w) = true) /\
  (_battery_notify (self w') = true -> _battery_notify (self w) = true).

(** A coroutine all of whose runs are [R]-steps of the world. *)
Definition Keeps (R : World -> World -> Prop) {A} (m : Task A) : Prop :=
  forall w, R w (snd (m w)).

(** A field assignment that leaves the queue and the client alone and
    raises no notification flag. *)
Definition quiet_update (f : BleController -> BleController) : Prop :=
  forall s, ui_queue (f s) = ui_queue s /\ _client (f s) = _client s /\
            (_status_notify (f s) = true -> _status_notify s = true) /\
            (_battery_notify (f s) = true -> _battery_notify s = true).

(** ** Environments and worlds of the examples *)

(** Every call returns, without data; nothing else happens. *)
Definition env_quiet : Env :=
  {| reply := fun _ _ => Returns [];
     during_connect := []; during_wait := []; wait_cancelled := false |}.

(** Every call ends in the same way. *)
Definition env_battery (o : Outcome) : Env :=
  {| reply := fun _ _ => o;
     during_connect := []; during_wait := []; wait_cancelled := false |}.

Definition env_write_fails : Env :=
  {| reply := fun _ c =>
                match c with
                | write_gatt_char _ _ _ => Raises "Not connected"
                | _ => Returns []
                end;
     during_connect := []; during_wait := []; wait_cancelled := false |}.

(** A connected controller with [payload] in the slot. *)
Definition world_with_pending (payload : bytes) : World :=
  world_of (set_pending_payload (Some payload)
              (set_client (Some (BleakClient_at "13:05:AA:05:6D:05"))
                 (PygameApp_ble "13:05:AA:05:6D:05"))).

(** The four ways [run] ends: the stop signal, a failed connection attempt,
    an error after the connection (the disconnection fails), cancellation
    during the wait. *)
Definition env_stopped : Env :=
  {| reply := fun _ _ => Returns [x2a]%byte;
     during_connect := [Call_send_control [x01; x01]%byte];
     during_wait := [Call_stop]; wait_cancelled := false |}.

Definition env_no_connection : Env :=
  {| reply := fun _ c => match c with
                         | connect _ => Raises "Device not found"
                         | _ => Returns []
                         end;
     during_connect := []; during_wait := []; wait_cancelled := false |}.

Definition env_error_after_connect : Env :=
  {| reply := fun _ c => match c with
                         | disconnect | stop_notify _ => Raises "Not connected"
                         | _ => Returns []
                         end;
     during_connect := []; during_wait := [Call_stop]; wait_cancelled := false |}.

Definition env_cancelled : Env :=
  {| reply := fun _ _ => Returns [];
     during_connect := []; during_wait := [Notify_status [x00]%byte];
     wait_cancelled := true |}.

(** The stop signal comes before the connection, so the subscriptions are
    still active when the [finally] block starts, and the task is cancelled
    in the first unsubscribe call. *)
Definition env_cancel_in_teardown : Env :=
  {| reply := fun _ c => match c with
                         | stop_notify _ => Cancelled
                         | _ => Returns []
                         end;
     during_connect := [Call_stop]; during_wait := []; wait_cancelled := false |}.

(** ** Tactics *)

Ltac quiet_update := intros ?; cbn; repeat split; auto; discriminate.

(** ** control.py: the labels and the keyboard front end *)

Definition throttle_label (value : Z) : string :=
  if value >? 0 then "Forward"
  else if value <? 0 then "Reverse"
  else "Stopped".

Definition steering_label (value : Z) : string :=
  if value <? 0 then "Left"
  else if value >? 0 then "Right"
  else "Straight".

(** [str(n)] for an int. *)
Definition str_of_int (n : Z) : string := NilZero.string_of_int (Z.to_int n).

(** Assignments to the command fields of the state. *)
Definition set_mode (v : Z) (s : ControlState) : ControlState :=
  {| mode := v; throttle := throttle s; steering := steering s;
     lights := lights s; turbo := turbo s; donut := donut s;
     battery_pct := battery_pct s; last_payload := last_payload s;
     last_status := last_status s; last_status_hex := last_status_hex s;
     message := message s |}.

Definition set_throttle (v : Z) (s : ControlState) : ControlState :=
  {| mode := mode s; throttle := v; steering := steering s;
     lights := lights s; turbo := turbo s; donut := donut s;
     battery_pct := battery_pct s; last_payload := last_payload s;
     last_status := last_status s; last_status_hex := last_status_hex s;
     message := message s |}.

Definition set_steering (v : Z) (s : ControlState) : ControlState :=
  {| mode := mode s; throttle := throttle s; steering := v;
     lights := lights s; turbo := turbo s; donut := donut s;
     battery_pct := battery_pct s; last_payload := last_payload s;
     last_status := last_status s; last_status_hex := last_status_hex s;
     message := message s |}.

Definition set_lights (v : bool) (s : ControlState) : ControlState :=
  {| mode := mode s; throttle := throttle s; steering := steering s;
     lights := v; turbo := turbo s; donut := donut s;
     battery_pct := battery_pct s; last_payload := last_payload s;
     last_status := last_status s; last_status_hex := last_status_hex s;
     message := message s |}.

Definition set_turbo (v : bool) (s : ControlState) : ControlState :=
  {| mode := mode s; throttle := throttle s; steering := steering s;
     lights := lights s; turbo := v; donut := donut s;
     battery_pct := battery_pct s; last_payload := last_payload s;
     last_status := last_status s; last_status_hex := last_status_hex s;
     message := message s |}.

Definition set_donut (v : bool) (s : ControlState) : ControlState :=
  {| mode := mode s; throttle := throttle s; steering := steering s;
     lights := lights s; turbo := turbo s; donut := v;
     battery_pct := battery_pct s; last_payload := last_payload s;
     last_status := last_status s; last_status_hex := last_status_hex s;
     message := message s |}.

Definition set_message (v : string) (s : ControlState) : ControlState :=
  {| mode := mode s; throttle := throttle s; steering := steering s;
     lights := lights s; turbo := turbo s; donut := donut s;
     battery_pct := battery_pct s; last_payload := last_payload s;
     last_status := last_status s; last_status_hex := last_status_hex s;
     message := v |}.

(** The state object is the one the controller holds: an assignment to
    [self.state.<field>] in the front end is seen by the controller. *)
Definition with_state (f : ControlState -> ControlState) (w : World) : World :=
  {| self := set_state (f (state (self w))) (self w); trace := trace w |}.

(** A [set[str]]: membership, [add], [discard]. *)
Definition key_in (k : string) (s : list string) : bool :=
  existsb (String.eqb k) s.

Definition key_add (k : string) (s : list string) : list string :=
  if key_in k s then s else k :: s.

Definition key_discard (k : string) (s : list string) : list string :=
  filter (fun x => negb (String.eqb k x)) s.

(** [value == "w"] for an [Optional[str]]. *)
Definition is_key (o : option string) (k : string) : bool :=
  match o with
  | Some x => String.eqb x k
  | None => false
  end.

(** The tasks the front end starts with [loop.create_task]. *)
Inductive Spawned : Type :=
| Spawn_send_control (payload : bytes)
| Spawn_request_battery
| Spawn_shutdown.

Module PygameApp.

(** The fields of the application the key handlers use; [state], [ble] and
    [ui_queue] are in the world. *)
Record t : Type := {
  running : bool;
  throttle_keys_down : list string;
  steering_keys_down : list string;
  toggle_keys_down : list string;
  last_throttle_key : option string;
  last_steering_key : option string
}.

(** [PygameApp.__init__]. *)
Definition init : t := {|
  running := false;
  throttle_keys_down := [];
  steering_keys_down := [];
  toggle_keys_down := [];
  last_throttle_key := None;
  last_steering_key := None
|}.

Definition set_running (v : bool) (a : t) : t :=
  {| running := v; throttle_keys_down := throttle_keys_down a;
     steering_keys_down := steering_keys_down a;
     toggle_keys_down := toggle_keys_down a;
     last_throttle_key := last_throttle_key a;
     last_steering_key := last_steering_key a |}.

Definition set_throttle_keys (v : list string) (l : option string) (a : t) : t :=
  {| running := running a; throttle_keys_down := v;
     steering_keys_down := steering_keys_down a;
     toggle_keys_down := toggle_keys_down a;
     last_throttle_key := l;
     last_steering_key := last_steering_key a |}.

Definition set_steering_keys (v : list string) (l : option string) (a : t) : t :=
  {| running := running a; throttle_keys_down := throttle_keys_down a;
     steering_keys_down := v;
     toggle_keys_down := toggle_keys_down a;
     last_throttle_key := last_throttle_key a;
     last_steering_key := l |}.

Definition set_toggle_keys (v : list string) (a : t) : t :=
  {| running := running a; throttle_keys_down := throttle_keys_down a;
     steering_keys_down := steering_keys_down a;
     toggle_keys_down := v;
     last_throttle_key := last_throttle_key a;
     last_steering_key := last_steering_key a |}.

(** [loop.create_task(self.ble.send_control(build_control_payload(self.state)))]:
    the payload is built when the task is created. *)
Definition spawn_send (w : World) : option (list Spawned) :=
  option_map (fun p => [Spawn_send_control p])
    (build_control_payload (state (self w))).

Definition _update_throttle_from_keys (a : t) (w : World) : bool * World :=
  let old := throttle (state (self w)) in
  let new_value :=
    if key_in "w" (throttle_keys_down a) && key_in "s" (throttle_keys_down a)
    then (if is_key (last_throttle_key a) "w" then 1 else -1)
    else if key_in "w" (throttle_keys_down a) then 1
    else if key_in "s" (throttle_keys_down a) then -1
    else 0 in
  if negb (new_value =? old) then
    (true,
     with_state (fun st => set_message (throttle_label new_value)
                             (set_throttle new_value st)) w)
  else (false, w).

Definition _update_steering_from_keys (a : t) (w : World) : bool * World :=
  let old := steering (state (self w)) in
  let new_value :=
    if key_in "a" (steering_keys_down a) && key_in "d" (steering_keys_down a)
    then (if is_key (last_steering_key a) "a" then -1 else 1)
    else if key_in "a" (steering_keys_down a) then -1
    else if key_in "d" (steering_keys_down a) then 1
    else 0 in
  if negb (new_value =? old) then
    (true,
     with_state (fun st => set_message (steering_label new_value)
                             (set_steering new_value st)) w)
  else (false, w).

Definition on_off (b : bool) : string := if b then "ON" else "OFF".

Definition _handle_toggle_press (key_name : string) (w : World)
  : option (World * list Spawned) :=
  (if String.eqb key_name "l" then
     let w1 := with_state (fun st => set_lights (negb (lights st)) st) w in
     let w2 := with_state
                 (fun st => set_message ("Lights " ++ on_off (lights st)) st) w1 in
     ts <- spawn_send w2 ;; Some (w2, ts)
   else if String.eqb key_name "t" then
     let w1 := with_state (fun st => set_turbo (negb (turbo st)) st) w in
     let w2 := with_state
                 (fun st => set_message ("Turbo " ++ on_off (turbo st)) st) w1 in
     ts <- spawn_send w2 ;; Some (w2, ts)
   else if String.eqb key_name "o" then
     let w1 := with_state (fun st => set_donut (negb (donut st)) st) w in
     let w2 := with_state
                 (fun st => set_message ("Donut " ++ on_off (donut st)) st) w1 in
     ts <- spawn_send w2 ;; Some (w2, ts)
   else if String.eqb key_name "m" then
     let w1 := with_state
                 (fun st => set_mode (if mode st =? 1 then 2 else 1) st) w in
     let w2 := with_state
                 (fun st => set_message ("Mode set to " ++ str_of_int (mode st)) st)
                 w1 in
     ts <- spawn_send w2 ;; Some (w2, ts)
   else if String.eqb key_name "b" then
     Some (with_state (set_message "Battery refresh requested") w,
           [Spawn_request_battery])
   else if String.eqb key_name "q" then
     Some (w, [Spawn_shutdown])
   else Some (w, []))%opt.

(** [key_name] is [pygame.key.name(event.key).lower()].  The result is the
    application, the world and the tasks created, [None] if the handler
    raised. *)
Definition handle_keydown (key_name : string) (a : t) (w : World)
  : option (t * World * list Spawned) :=
  (if negb (running a) then Some (a, w, [])
   else if key_in key_name ["w"; "s"] then
     let a1 := set_throttle_keys (key_add key_name (throttle_keys_down a))
                 (Some key_name) a in
     let (changed, w1) := _update_throttle_from_keys a1 w in
     if changed then ts <- spawn_send w1 ;; Some (a1, w1, ts)
     else Some (a1, w1, [])
   else if key_in key_name ["a"; "d"] then
     let a1 := set_steering_keys (key_add key_name (steering_keys_down a))
                 (Some key_name) a in
     let (changed, w1) := _update_steering_from_keys a1 w in
     if changed then ts <- spawn_send w1 ;; Some (a1, w1, ts)
     else Some (a1, w1, [])
   else if key_in key_name ["l"; "t"; "o"; "m"; "b"; "q"] then
     if negb (key_in key_name (toggle_keys_down a)) then
       let a1 := set_toggle_keys (key_add key_name (toggle_keys_down a)) a in
       r <- _handle_toggle_press key_name w ;;
       Some (a1, fst r, snd r)
     else Some (a, w, [])
   else Some (a, w, []))%opt.

Definition handle_keyup (key_name : string) (a : t) (w : World)
  : option (t * World * list Spawned) :=
  (r <- (if key_in key_name (throttle_keys_down a) then
           let a1 := set_throttle_keys
                       (key_discard key_name (throttle_keys_down a))
                       (last_throttle_key a) a in
           let (changed, w1) := _update_throttle_from_keys a1 w in
           if changed then ts <- spawn_send w1 ;; Some (a1, w1, ts)
           else Some (a1, w1, [])
         else if key_in key_name (steering_keys_down a) then
           let a1 := set_steering_keys
                       (key_discard key_name (steering_keys_down a))
                       (last_steering_key a) a in
           let (changed, w1) := _update_steering_from_keys a1 w in
           if changed then ts <- spawn_send w1 ;; Some (a1, w1, ts)
           else Some (a1, w1, [])
         else Some (a, w, [])) ;;
   let '(a1, w1, ts) := r in
   if key_in key_name (toggle_keys_down a1) then
     Some (set_toggle_keys (key_discard key_name (toggle_keys_down a1)) a1,
           w1, ts)
   else Some (a1, w1, ts))%opt.

(** [shutdown]: the fields of the application are set before the first
    [await], so they are the same however the coroutine ends. *)
Definition shutdown (env : Env) (a : t) : t * Task unit :=
  if negb (running a) then (a, ret tt)
  else
    ({| running := false;
        throttle_keys_down := [];
        steering_keys_down := [];
        toggle_keys_down := [];
        last_throttle_key := last_throttle_key a;
        last_steering_key := last_steering_key a |},
     (bind (fun w => (Ret tt, with_state (set_throttle 0) w)) (fun _ =>
      bind (fun w => (Ret tt, with_state (set_steering 0) w)) (fun _ =>
      bind get_self (fun s =>
      bind (lift "ValueError" (build_control_payload (state s))) (fun payload =>
      bind (send_control env payload) (fun _ =>
      stop env))))))).

(** A task created by the front end, run to its end; how it ends is its
    own business. *)
Definition run_spawned (env : Env) (s : Spawned) (a : t) (w : World)
  : t * World :=
  match s with
  | Spawn_send_control payload => (a, snd (send_control env payload w))
  | Spawn_request_battery => (a, snd (request_battery env w))
  | Spawn_shutdown =>
      let (a', m) := shutdown env a in (a', snd (m w))
  end.

(** The tasks run in the order of their creation. *)
Fixpoint run_all_spawned (env : Env) (ts : list Spawned) (a : t) (w : World)
  : t * World :=
  match ts with
  | [] => (a, w)
  | s :: ts' =>
      let (a1, w1) := run_spawned env s a w in
      run_all_spawned env ts' a1 w1
  end.

End PygameApp.

(** ** Vocabulary of the further statements *)

(** The value of a hexadecimal digit, and of a pair of them. *)
Definition unhex_digit (c : ascii) : option N :=
  let n := N_of_ascii c in
  (if (48 <=? n) && (n <=? 57) then Some (n - 48)
   else if (97 <=? n) && (n <=? 102) then Some (n - 87)
   else None)%N.

Fixpoint unhex (s : string) : option bytes :=
  match s with
  | EmptyString => Some []
  | String c1 (String c2 s') =>
      match unhex_digit c1, unhex_digit c2, unhex s' with
      | Some h, Some l, Some bs =>
          option_map (fun b => b :: bs) (Byte.of_N (16 * h + l))
      | _, _, _ => None
      end
  | String _ EmptyString => None
  end.

(** The payload recorded as last sent was handed to the transport. *)
Definition sent_was_written (w : World) : Prop :=
  forall p, _last_sent_payload (self w) = Some p -> In (write_call p) (trace w).

(** A stopped controller has its stop event set. *)
Definition stopped_is_signalled (w : World) : Prop :=
  _stopped (self w) = true -> _stop_event (self w) = true.

(** What every coroutine of the controller keeps to: the trace only grows,
    the write lock is given back, the last-sent payload stays a written
    one, a stop is for good, and the address is not touched. *)
Definition steady_step (w w' : World) : Prop :=
  (exists t, trace w' = trace w ++ t) /\
  _write_lock (self w') = _write_lock (self w) /\
  (sent_was_written w -> sent_was_written w') /\
  (_stopped (self w) = true -> _stopped (self w') = true) /\
  (_stop_event (self w) = true -> _stop_event (self w') = true) /\
  (stopped_is_signalled w -> stopped_is_signalled w') /\
  address (self w') = address (self w).

(** A field assignment that touches none of the fields [steady_step]
    speaks of. *)
Definition steady_update (f : BleController -> BleController) : Prop :=
  forall s, _write_lock (f s) = _write_lock s /\
            _last_sent_payload (f s) = _last_sent_payload s /\
            _stopped (f s) = _stopped s /\
            _stop_event (f s) = _stop_event s /\
            address (f s) = address s.

(** A coroutine that comes to an end from every world where [P] holds. *)
Definition Ends (P : World -> Prop) {A} (m : Task A) : Prop :=
  forall w, P w -> fst (m w) <> Hang.

Definition lock_free (w : World) : Prop := _write_lock (self w) = false.

(** The wait for the stop signal will not last for ever. *)
Definition wait_will_end (env : Env) (w : World) : Prop :=
  lock_free w /\ stopped_is_signalled w /\
  (_stop_event (self w) = true \/ In Call_stop (during_wait env) \/
   wait_cancelled env = true).

(** The calls of the front end, as opposed to the notifications of the
    transport. *)
Definition is_command (c : ApiCall) : bool :=
  match c with
  | Call_send_control _ | Call_request_battery | Call_stop => true
  | Notify_status _ | Notify_battery _ => false
  end.

Definition status_start : Call := start_notify STATUS_CHARACTERISTIC_UUID.

Definition battery_start : Call := start_notify BATTERY_CHARACTERISTIC_UUID.

(** A connected controller in the world of the examples. *)
Definition live_world : World :=
  world_of (set_client (Some (BleakClient_at "13:05:AA:05:6D:05"))
              (PygameApp_ble "13:05:AA:05:6D:05")).

(** The status subscription fails, everything else succeeds. *)
Definition env_status_refused : Env :=
  {| reply := fun _ c =>
                match c with
                | start_notify uuid =>
                    if String.eqb uuid STATUS_CHARACTERISTIC_UUID
                    then Raises "Characteristic not found" else Returns []
                | _ => Returns []
                end;
     during_connect := []; during_wait := []; wait_cancelled := false |}.

(** Somebody stops the session or cancels the task: the stop event is set
    already, or another task calls [stop] during the connection attempt or
    during the wait, or the wait is cancelled. *)
Definition run_will_end (env : Env) (w : World) : Prop :=
  lock_free w /\ stopped_is_signalled w /\
  (_stop_event (self w) = true \/ In Call_stop (during_connect env) \/
   In Call_stop (during_wait env) \/ wait_cancelled env = true).

(** The slot is not touched. *)
Definition slot_kept (w w' : World) : Prop :=
  _pending_payload (self w') = _pending_payload (self w).

(** The command is one the keyboard can produce. *)
Definition command_ok (st : ControlState) : Prop :=
  (throttle st = -1 \/ throttle st = 0 \/ throttle st = 1) /\
  (steering st = -1 \/ steering st = 0 \/ steering st = 1) /\
  (mode st = 1 \/ mode st = 2).

(** [w'] is [w] with other command fields and another message in its state:
    the telemetry fields of the state, the rest of the controller and the
    trace are the same. *)
Definition command_step (w w' : World) : Prop :=
  exists st',
    w' = with_state (fun _ => st') w /\
    battery_pct st' = battery_pct (state (self w)) /\
    last_payload st' = last_payload (state (self w)) /\
    last_status st' = last_status (state (self w)) /\
    last_status_hex st' = last_status_hex (state (self w)) /\
    (command_ok (state (self w)) -> command_ok st').

(** The controller has sent what the state says and nothing waits. *)
Definition in_sync (w : World) : Prop :=
  _pending_payload (self w) = None /\
  _last_sent_payload (self w) = build_control_payload (state (self w)).

(** A connected controller that is not stopped, with the lock free. *)
Definition ready (w : World) : Prop :=
  (exists c, _client (self w) = Some c) /\
  _stopped (self w) = false /\ lock_free w.

(** Every write of a control payload returns. *)
Definition writes_return (env : Env) : Prop :=
  forall k p, exists d, reply env k (write_call p) = Returns d.

(** The slot, the last-sent payload, the packet of the state, the client,
    the stopped flag and the lock are kept. *)
Definition sync_kept (w w' : World) : Prop :=
  _pending_payload (self w') = _pending_payload (self w) /\
  _last_sent_payload (self w') = _last_sent_payload (self w) /\
  build_control_payload (state (self w')) =
    build_control_payload (state (self w)) /\
  _client (self w') = _client (self w) /\
  _stopped (self w') = _stopped (self w) /\
  _write_lock (self w') = _write_lock (self w).

(** The tasks a key event created, against what it did to the packet: no
    send task and the same packet, or one send task, of the new packet,
    which differs from the old one if the old command was one of the
    keyboard. *)
Definition sends_packet (w w' : World) (ts : list Spawned) : Prop :=
  (build_control_payload (state (self w')) =
     build_control_payload (state (self w)) /\
   (ts = [] \/ ts = [Spawn_request_battery] \/ ts = [Spawn_shutdown])) \/
  (exists p, ts = [Spawn_send_control p] /\
             build_control_payload (state (self w')) = Some p /\
             (command_ok (state (self w)) ->
              build_control_payload (state (self w)) <> Some p)).

(** The same, and the send task is there only for a packet that differs
    from the one before. *)
Definition sends_on_change (w w' : World) (ts : list Spawned) : Prop :=
  (build_control_payload (state (self w')) =
     build_control_payload (state (self w)) /\
   forall p, ~ In (Spawn_send_control p) ts) \/
  (exists p, ts = [Spawn_send_control p] /\
             build_control_payload (state (self w')) = Some p /\
             build_control_payload (state (self w)) <> Some p).

(** A running application with no key down, on a connected controller. *)
Definition app_running : PygameApp.t := PygameApp.set_running true PygameApp.init.

(** * Facts about the codec *)

Lemma byte_of_int_range (z : Z) :
  0 <= z <= 255 -> exists b, byte_of_int z = Some b /\ int_of_byte b = z.
Proof.
  intros Hz. unfold byte_of_int, int_of_byte.
  destruct (z <? 0) eqn:Hneg; [lia|].
  destruct (Byte.of_N (Z.to_N z)) as [b|] eqn:Hb.
  - exists b. split; [reflexivity|].
    apply Byte.to_of_N in Hb. rewrite Hb. lia.
  - apply Byte.of_N_None_iff in Hb. lia.
Qed.

Lemma land_255_range (z : Z) : 0 <= Z.land z 255 <= 255.
Proof.
  assert (H : Z.land z 255 = z mod 256)
    by (change 255 with (Z.ones 8); rewrite Z.land_ones by lia; reflexivity).
  rewrite H. pose proof (Z.mod_pos_bound z 256). lia.
Qed.

Lemma byte_of_int_0 : byte_of_int 0 = Some x00%byte.
Proof. reflexivity. Qed.

Lemma byte_of_int_1 : byte_of_int 1 = Some x01%byte.
Proof. reflexivity. Qed.

Lemma byte_of_flag (c : bool) :
  byte_of_int (if c then 1 else 0) = Some (if c then x01 else x00)%byte.
Proof. destruct c; reflexivity. Qed.

Lemma int_of_flag_byte (c : bool) :
  int_of_byte (if c then x01 else x00)%byte = if c then 1 else 0.
Proof. destruct c; reflexivity. Qed.

(** The eight bytes [build_control_payload] produces, one by one. *)
Lemma build_control_payload_bytes (st : ControlState) :
  exists b0,
    int_of_byte b0 = Z.land (mode st) 255 /\
    build_control_payload st =
      Some [ b0;
             if throttle st >? 0 then x01 else x00;
             if throttle st <? 0 then x01 else x00;
             if steering st <? 0 then x01 else x00;
             if steering st >? 0 then x01 else x00;
             if lights st then x01 else x00;
             if turbo st then x01 else x00;
             if donut st then x01 else x00 ]%byte.
Proof.
  destruct (byte_of_int_range _ (land_255_range (mode st))) as (b0 & Hb0 & Hi).
  exists b0. split; [exact Hi|].
  unfold build_control_payload, int_of_bool. cbn [bytes_of_ints].
  rewrite Hb0, !byte_of_flag. reflexivity.
Qed.

Lemma ValidationTool_build_control_payload_same (st : ControlState) :
  ValidationTool.build_control_payload (throttle st) (steering st)
    (lights st) (turbo st) (donut st) (mode st)
  = build_control_payload st.
Proof. reflexivity. Qed.

(** C1: for every state, both copies of the encoder return the eight bytes
    [mode & 0xFF, throttle>0, throttle<0, steering<0, steering>0, lights,
    turbo, donut] with the flags as 1/0; every flag byte is 0 or 1, and
    neither forward and reverse nor left and right are both 1. *)
Theorem C1_encode_layout (st : ControlState) :
  exists payload : bytes,
    build_control_payload st = Some payload /\
    ValidationTool.build_control_payload (throttle st) (steering st)
      (lights st) (turbo st) (donut st) (mode st) = Some payload /\
    map int_of_byte payload =
      [ Z.land (mode st) 255;
        if throttle st >? 0 then 1 else 0;
        if throttle st <? 0 then 1 else 0;
        if steering st <? 0 then 1 else 0;
        if steering st >? 0 then 1 else 0;
        if lights st then 1 else 0;
        if turbo st then 1 else 0;
        if donut st then 1 else 0 ] /\
    Forall (fun b => int_of_byte b = 0 \/ int_of_byte b = 1) (tl payload) /\
    nth 1 (map int_of_byte payload) 0 + nth 2 (map int_of_byte payload) 0 <= 1 /\
    nth 3 (map int_of_byte payload) 0 + nth 4 (map int_of_byte payload) 0 <= 1.
Proof.
  destruct (build_control_payload_bytes st) as (b0 & Hb0 & Hp).
  eexists. split; [exact Hp|].
  split; [rewrite ValidationTool_build_control_payload_same; exact Hp|].
  cbn [map tl nth]. rewrite !int_of_flag_byte, Hb0.
  split; [reflexivity|].
  split.
  - repeat (apply Forall_cons;
              [match goal with |- context [if ?c then _ else _] => destruct c end;
               auto|]).
    apply Forall_nil.
  - split.
    + destruct (throttle st >? 0) eqn:E1, (throttle st <? 0) eqn:E2; lia.
    + destruct (steering st <? 0) eqn:E1, (steering st >? 0) eqn:E2; lia.
Qed.

(** C2: decoding what [build_control_payload] returns takes the length-8
    branch, and the fields mode, forward, reverse, left, right, lights,
    turbo, donut are the bytes of the payload in that order. *)
Theorem C2_decode_encode (st : ControlState) :
  exists b0 b1 b2 b3 b4 b5 b6 b7 : byte,
    build_control_payload st = Some [b0; b1; b2; b3; b4; b5; b6; b7] /\
    decode_status_payload [b0; b1; b2; b3; b4; b5; b6; b7] =
      Some [ ("length", VInt 8);
             ("mode", VInt (int_of_byte b0));
             ("forward", VInt (int_of_byte b1));
             ("reverse", VInt (int_of_byte b2));
             ("left", VInt (int_of_byte b3));
             ("right", VInt (int_of_byte b4));
             ("lights", VInt (int_of_byte b5));
             ("turbo", VInt (int_of_byte b6));
             ("donut", VInt (int_of_byte b7)) ] /\
    map int_of_byte [b0; b1; b2; b3; b4; b5; b6; b7] =
      [ Z.land (mode st) 255;
        if throttle st >? 0 then 1 else 0;
        if throttle st <? 0 then 1 else 0;
        if steering st <? 0 then 1 else 0;
        if steering st >? 0 then 1 else 0;
        if lights st then 1 else 0;
        if turbo st then 1 else 0;
        if donut st then 1 else 0 ].
Proof.
  destruct (build_control_payload_bytes st) as (b0 & Hb0 & Hp).
  do 8 eexists. split; [exact Hp|].
  split; [reflexivity|].
  cbn [map]. rewrite !int_of_flag_byte, Hb0. reflexivity.
Qed.

Lemma decode_other_length (data : bytes) :
  List.length data <> 1%nat -> List.length data <> 8%nat ->
  decode_status_payload data =
    Some [("length", VInt (len data)); ("raw", VStr (hex data))].
Proof.
  intros H1 H8. unfold decode_status_payload, len.
  destruct (Z.of_nat (List.length data) =? 1) eqn:E1; [lia|].
  destruct (Z.of_nat (List.length data) =? 8) eqn:E8; [lia|].
  reflexivity.
Qed.

Lemma decode_status_payload_cases (data : bytes) :
  decode_status_payload data =
    Some match data with
         | [b] => [("length", VInt 1); ("battery_pct", VInt (int_of_byte b))]
         | [b0; b1; b2; b3; b4; b5; b6; b7] =>
             [ ("length", VInt 8);
               ("mode", VInt (int_of_byte b0));
               ("forward", VInt (int_of_byte b1));
               ("reverse", VInt (int_of_byte b2));
               ("left", VInt (int_of_byte b3));
               ("right", VInt (int_of_byte b4));
               ("lights", VInt (int_of_byte b5));
               ("turbo", VInt (int_of_byte b6));
               ("donut", VInt (int_of_byte b7)) ]
         | _ => [("length", VInt (Z.of_nat (List.length data)));
                 ("raw", VStr (hex data))]
         end.
Proof.
  destruct data as [|b0 [|b1 [|b2 [|b3 [|b4 [|b5 [|b6 [|b7 [|b8 rest]]]]]]]]];
    try reflexivity.
  apply decode_other_length; simpl; lia.
Qed.

Lemma decode_no_battery_pct (data : bytes) :
  List.length data <> 1%nat ->
  exists d, decode_status_payload data = Some d /\
            dict_get d "battery_pct" = None.
Proof.
  intros H. rewrite decode_status_payload_cases. eexists. split; [reflexivity|].
  destruct data as [|b0 [|b1 [|b2 [|b3 [|b4 [|b5 [|b6 [|b7 [|b8 rest]]]]]]]]];
    try reflexivity.
  simpl in H. lia.
Qed.

(** C3: [decode_status_payload] never fails.  One byte gives the battery
    dict with byte 0, eight bytes give the status dict with the eight
    positional fields, every other length (0 included) gives the dict with
    the length and the hex text of the bytes.  The three inputs of the
    spec's scenario decode as it says. *)
Theorem C3_decode_total (data : bytes) :
  decode_status_payload data =
    Some match data with
         | [b] => [("length", VInt 1); ("battery_pct", VInt (int_of_byte b))]
         | [b0; b1; b2; b3; b4; b5; b6; b7] =>
             [ ("length", VInt 8);
               ("mode", VInt (int_of_byte b0));
               ("forward", VInt (int_of_byte b1));
               ("reverse", VInt (int_of_byte b2));
               ("left", VInt (int_of_byte b3));
               ("right", VInt (int_of_byte b4));
               ("lights", VInt (int_of_byte b5));
               ("turbo", VInt (int_of_byte b6));
               ("donut", VInt (int_of_byte b7)) ]
         | _ => [("length", VInt (Z.of_nat (List.length data)));
                 ("raw", VStr (hex data))]
         end
  /\ decode_status_payload [x2a]%byte =
       Some [("length", VInt 1); ("battery_pct", VInt 42)]
  /\ decode_status_payload [x01; x01; x00; x00; x01; x01; x01; x00]%byte =
       Some [ ("length", VInt 8); ("mode", VInt 1); ("forward", VInt 1);
              ("reverse", VInt 0); ("left", VInt 0); ("right", VInt 1);
              ("lights", VInt 1); ("turbo", VInt 1); ("donut", VInt 0) ]
  /\ decode_status_payload [x09; x09; x09]%byte =
       Some [("length", VInt 3); ("raw", VStr "090909")].
Proof.
  split; [apply decode_status_payload_cases|repeat split; reflexivity].
Qed.

(** * Facts about the queue *)

Lemma put_nowait_not_full (q : Queue) (item : QueueItem) :
  full q = false ->
  put_nowait q item = Some {| maxsize := maxsize q; items := items q ++ [item] |}.
Proof. unfold put_nowait. intros ->. reflexivity. Qed.

Lemma put_nowait_full (q : Queue) (item : QueueItem) :
  full q = true -> put_nowait q item = None.
Proof. unfold put_nowait. intros ->. reflexivity. Qed.

Lemma unbounded_never_full (q : Queue) : maxsize q <= 0 -> full q = false.
Proof.
  unfold full. intros H. destruct (maxsize q <=? 0) eqn:E; [reflexivity|lia].
Qed.

Lemma bytes_eqb_refl (b : bytes) : bytes_eqb b b = true.
Proof.
  induction b as [|x b IH]; simpl; [reflexivity|].
  rewrite IH, (Byte.byte_dec_lb eq_refl). reflexivity.
Qed.

Lemma bytes_eqb_eq (a b : bytes) : bytes_eqb a b = true <-> a = b.
Proof.
  split.
  - revert b. induction a as [|x a IH]; intros [|y b]; simpl;
      try discriminate; [reflexivity|].
    intros H. apply andb_true_iff in H. destruct H as [Hx Hab].
    apply Byte.byte_dec_bl in Hx. apply IH in Hab. congruence.
  - intros ->. apply bytes_eqb_refl.
Qed.

Lemma bytes_eqb_neq (a b : bytes) : a <> b -> bytes_eqb a b = false.
Proof.
  intros H. destruct (bytes_eqb a b) eqn:E; [|reflexivity].
  apply bytes_eqb_eq in E. contradiction.
Qed.

(** * Facts about the controller *)

Section ControllerFacts.

Variable env : Env.

Local Open Scope task_scope.

(** The [while] of [_write_pending], unfolded once. *)
Lemma write_loop_eq (w : World) :
  write_loop env w =
    if pending_and_client w then
      match write_one env w with
      | (Ret Continue, w') => write_loop env w'
      | (Ret Break, w') => (Ret tt, w')
      | (Raise e, w') => (Raise e, w')
      | (Hang, w') => (Hang, w')
      end
    else (Ret tt, w).
Proof.
  funelim (write_loop env w); 
    match goal with H : pending_and_client _ = _ |- _ => rewrite H end;
    try reflexivity;
    match goal with H : write_one _ _ = _ |- _ => rewrite H end;
    reflexivity.
Qed.

Lemma write_one_empties_slot (w w' : World) :
  pending_and_client w = true ->
  write_one env w = (Ret Continue, w') ->
  (slot w' < slot w)%nat.
Proof.
  unfold pending_and_client, slot, write_one, bind, get_self, assign,
    try_except, await, _queue_ui, ret.
  drain_cases.
Qed.

Lemma slot_zero_no_pending (w : World) :
  slot w = 0%nat -> pending_and_client w = false.
Proof.
  unfold slot, pending_and_client.
  destruct (is_some (_pending_payload (self w))); [discriminate|reflexivity].
Qed.

(** Nothing refills the slot during a turn, so the loop makes at most one
    turn: its second test fails. *)
Lemma write_loop_once (w : World) :
  write_loop env w =
    if pending_and_client w then
      match write_one env w with
      | (Ret _, w') => (Ret tt, w')
      | (Raise e, w') => (Raise e, w')
      | (Hang, w') => (Hang, w')
      end
    else (Ret tt, w).
Proof.
  rewrite write_loop_eq.
  destruct (pending_and_client w) eqn:Hc; [|reflexivity].
  destruct (write_one env w) as [[[|]|e|] w'] eqn:Hb; try reflexivity.
  pose proof (write_one_empties_slot w w' Hc Hb) as Hlt.
  rewrite write_loop_eq, slot_zero_no_pending; [reflexivity|].
  unfold slot in *. destruct (is_some (_pending_payload (self w))); lia.
Qed.

Lemma write_pending_some (w : World) (c : BleakClient) (payload : bytes) :
  _client (self w) = Some c ->
  _write_lock (self w) = false ->
  _pending_payload (self w) = Some payload ->
  _write_pending env w =
    match reply env (List.length (trace w))
            (write_call payload) with
    | Returns _ => _queue_ui ("payload", DBytes payload) (recorded payload w)
    | Raises exc =>
        _queue_ui ("error", DStr ("ERROR sending command: " ++ exc))
          (taken payload w)
    | Cancelled => (Raise CancelledError, taken payload w)
    end.
Proof.
  intros Hc Hl Hp.
  unfold _write_pending, bind, get_self, with_write_lock, try_finally.
  rewrite Hc. cbn [is_none is_some negb]. rewrite Hl.
  rewrite write_loop_once.
  unfold pending_and_client, write_one, bind, get_self, assign, try_except,
    await, _queue_ui, ret, taken, recorded, write_call.
  cbn [self trace set_write_lock _pending_payload _client]. rewrite Hp, Hc.
  cbn [is_some andb].
  destruct w as [s tr]; destruct s; cbn in Hc, Hl, Hp |- *; subst.
  destruct (reply env _ _); cbn.
  - destruct (put_nowait _ _); reflexivity.
  - destruct (put_nowait _ _); reflexivity.
  - reflexivity.
Qed.

Lemma write_pending_none (w : World) :
  _write_lock (self w) = false ->
  _pending_payload (self w) = None ->
  _write_pending env w = (Ret tt, w).
Proof.
  intros Hl Hp.
  unfold _write_pending, bind, get_self, with_write_lock, try_finally, ret.
  destruct (_client (self w)) eqn:Hc; cbn [is_none is_some negb];
    [|reflexivity].
  rewrite Hl, write_loop_once.
  unfold pending_and_client. cbn [self set_write_lock _pending_payload].
  rewrite Hp. cbn.
  destruct w as [s tr]; destruct s; cbn in Hc, Hl, Hp |- *; subst.
  reflexivity.
Qed.

End ControllerFacts.

Local Open Scope task_scope.

Lemma battery_handler_nonempty (b : byte) (rest : bytes) (w : World) :
  _battery_handler (b :: rest) w =
    _queue_ui ("battery", DInt (int_of_byte b))
      {| self := set_state
                   (set_battery_pct (Some (int_of_byte b)) (state (self w)))
                   (self w);
         trace := trace w |}.
Proof.
  unfold _battery_handler. rewrite decode_status_payload_cases.
  destruct rest as [|b1 [|b2 [|b3 [|b4 [|b5 [|b6 [|b7 [|b8 rest]]]]]]]];
    reflexivity.
Qed.

(** C10: a battery notification whose payload is not one byte long decodes
    to a dict without [battery_pct]; when such a payload is not empty the
    handler takes its first byte as the percentage, stores it in
    [battery_pct] and queues a battery event with it.  An empty payload,
    and only an empty one, gives a status event and leaves [battery_pct]
    as it was. *)
Theorem C10_battery_fallback (data : bytes) (w : World) :
  (List.length data <> 1%nat ->
     exists d, decode_status_payload data = Some d /\
               dict_get d "battery_pct" = None) /\
  (forall b rest, data = b :: rest ->
     _battery_handler data w =
       _queue_ui ("battery", DInt (int_of_byte b))
         {| self := set_state
                      (set_battery_pct (Some (int_of_byte b)) (state (self w)))
                      (self w);
            trace := trace w |}) /\
  (data = [] ->
     _battery_handler data w = _queue_ui ("status", DNone) w /\
     battery_pct (state (self (snd (_battery_handler data w))))
       = battery_pct (state (self w))).
Proof.
  split; [apply decode_no_battery_pct|]. split.
  - intros b rest ->. apply battery_handler_nonempty.
  - intros ->. split; [reflexivity|].
    unfold _battery_handler, _queue_ui, bind, lift. cbn.
    destruct (put_nowait _ _); reflexivity.
Qed.

Lemma C10_battery_fallback_witness :
  let data := [x01; x01; x00; x00; x01; x01; x01; x00]%byte in
  let w := {| self := PygameApp_ble "13:05:AA:05:6D:05"; trace := [] |} in
  battery_pct (state (self (snd (_battery_handler data w)))) = Some 1 /\
  items (ui_queue (self (snd (_battery_handler data w)))) = [("battery", DInt 1)] /\
  (exists d, decode_status_payload data = Some d /\
             dict_get d "battery_pct" = None) /\
  items (ui_queue (self (snd (_battery_handler [] w)))) = [("status", DNone)].
Proof.
  intros data w.
  destruct (C10_battery_fallback data w) as (Hd & Hne & _).
  destruct (C10_battery_fallback [] w) as (_ & _ & He).
  rewrite (Hne _ _ eq_refl).
  destruct (He eq_refl) as [-> _].
  repeat split; try reflexivity.
  apply Hd. simpl. lia.
Defined.

(** C5: when the payload equals the last one transmitted and the slot is
    empty, [send_control] makes no transport call and changes nothing,
    whatever the rest of the state; so does submitting it twice. *)
Theorem C5_idempotent_suppression (env : Env) (payload : bytes) (w : World) :
  _last_sent_payload (self w) = Some payload ->
  _pending_payload (self w) = None ->
  send_control env payload w = (Ret tt, w) /\
  (send_control env payload ;; send_control env payload) w = (Ret tt, w).
Proof.
  intros Hl Hp.
  assert (H : send_control env payload w = (Ret tt, w)).
  { unfold send_control, bind, get_self, ret. rewrite Hl, Hp.
    cbn [eq_optional is_none is_some negb]. rewrite bytes_eqb_refl.
    destruct (_stopped (self w)); reflexivity. }
  split; [exact H|]. unfold bind at 1. rewrite H. exact H.
Qed.

Lemma C5_idempotent_suppression_witness :
  let env := env_quiet in
  let w := {| self := set_last_sent_payload (Some [x01; x01]%byte)
                        (set_client (Some (BleakClient_at "13:05:AA:05:6D:05"))
                           (PygameApp_ble "13:05:AA:05:6D:05"));
              trace := [] |} in
  send_control env [x01; x01]%byte w = (Ret tt, w) /\
  (send_control env [x01; x01]%byte ;; send_control env [x01; x01]%byte) w
    = (Ret tt, w).
Proof.
  intros env w. apply (C5_idempotent_suppression env [x01; x01]%byte w); reflexivity.
Defined.

Lemma queue_ui_returns (item : QueueItem) (w : World) :
  fst (_queue_ui item w) = Ret tt.
Proof. unfold _queue_ui. destruct (put_nowait _ _); reflexivity. Qed.

Lemma queue_ui_trace (item : QueueItem) (w : World) :
  trace (snd (_queue_ui item w)) = trace w.
Proof. unfold _queue_ui. destruct (put_nowait _ _); reflexivity. Qed.

Lemma queue_ui_fields (item : QueueItem) (w : World) :
  let s' := self (snd (_queue_ui item w)) in
  _client s' = _client (self w) /\
  _pending_payload s' = _pending_payload (self w) /\
  _last_sent_payload s' = _last_sent_payload (self w) /\
  _stopped s' = _stopped (self w) /\
  _write_lock s' = _write_lock (self w) /\
  state s' = state (self w) /\
  _status_notify s' = _status_notify (self w) /\
  _battery_notify s' = _battery_notify (self w).
Proof. unfold _queue_ui. destruct (put_nowait _ _); cbn; auto 10. Qed.

Lemma send_control_disconnected (env : Env) (payload : bytes) (w : World) :
  _stopped (self w) = false ->
  _client (self w) = None ->
  send_control env payload w =
    (Ret tt,
     if eq_optional payload (_last_sent_payload (self w))
        && is_none (_pending_payload (self w))
     then w
     else {| self := set_pending_payload (Some payload) (self w);
             trace := trace w |}).
Proof.
  intros Hs Hc. unfold send_control, bind, get_self, assign, ret.
  rewrite Hs.
  destruct (eq_optional payload (_last_sent_payload (self w))
            && is_none (_pending_payload (self w))); [reflexivity|].
  cbn. rewrite Hc. reflexivity.
Qed.

Lemma write_pending_trace (env : Env) (w : World) (c : BleakClient)
    (payload : bytes) :
  _client (self w) = Some c ->
  _write_lock (self w) = false ->
  _pending_payload (self w) = Some payload ->
  fst (_write_pending env w) <> Hang /\
  trace (snd (_write_pending env w)) =
    (trace w ++ [write_call payload])%list.
Proof.
  intros Hc Hl Hp. rewrite (write_pending_some env w c payload Hc Hl Hp).
  destruct (reply env _ _).
  - rewrite queue_ui_returns, queue_ui_trace. split; [discriminate|reflexivity].
  - rewrite queue_ui_returns, queue_ui_trace. split; [discriminate|reflexivity].
  - split; [discriminate|reflexivity].
Qed.

(** C4: on a session that is not stopped and not yet connected, two submits
    with different payloads make no transport call and leave the second
    payload in the slot; when the connection is then set up and the drain
    runs, it makes exactly one transport call, the write of the second
    payload. *)
Theorem C4_coalescing (env : Env) (w : World) (p1 p2 : bytes) (c : BleakClient) :
  _stopped (self w) = false ->
  _client (self w) = None ->
  _write_lock (self w) = false ->
  p1 <> p2 ->
  let submitted := (send_control env p1 ;; send_control env p2) w in
  let connected := {| self := set_client (Some c) (self (snd submitted));
                      trace := trace (snd submitted) |} in
  fst submitted = Ret tt /\
  trace (snd submitted) = trace w /\
  _pending_payload (self (snd submitted)) = Some p2 /\
  fst (_send_pending env connected) <> Hang /\
  trace (snd (_send_pending env connected)) =
    (trace w ++ [write_call p2])%list.
Proof.
  intros Hs Hc Hl Hne submitted connected.
  assert (Hsub : submitted =
                 (Ret tt, {| self := set_pending_payload (Some p2) (self w);
                             trace := trace w |})).
  { unfold submitted, bind at 1.
    rewrite (send_control_disconnected env p1 w Hs Hc). cbv iota beta.
    destruct (eq_optional p1 (_last_sent_payload (self w))
              && is_none (_pending_payload (self w))) eqn:E.
    - rewrite (send_control_disconnected env p2 w Hs Hc).
      apply andb_true_iff in E. destruct E as [E1 E2]. rewrite E2.
      destruct (_last_sent_payload (self w)) as [l|]; [|discriminate].
      cbn in E1 |- *. apply bytes_eqb_eq in E1. subst l.
      rewrite (bytes_eqb_neq p2 p1) by congruence. reflexivity.
    - rewrite send_control_disconnected by (cbn; assumption).
      cbn. rewrite andb_false_r. reflexivity. }
  unfold connected. rewrite Hsub. cbn [fst snd self trace].
  set (w3 := {| self := set_client (Some c)
                          (set_pending_payload (Some p2) (self w));
                trace := trace w |}).
  assert (Hd : _send_pending env w3 = _write_pending env w3) by reflexivity.
  destruct (write_pending_trace env w3 c p2) as [Hh Ht];
    [reflexivity | exact Hl | reflexivity |].
  rewrite Hd. auto.
Qed.

Lemma C4_coalescing_witness :
  let w := {| self := PygameApp_ble "13:05:AA:05:6D:05"; trace := [] |} in
  let p1 := [x01; x01; x00; x00; x00; x00; x00; x00]%byte in
  let p2 := [x01; x00; x00; x00; x00; x00; x00; x00]%byte in
  let c := BleakClient_at "13:05:AA:05:6D:05" in
  let submitted := (send_control env_quiet p1 ;; send_control env_quiet p2) w in
  let connected := {| self := set_client (Some c) (self (snd submitted));
                      trace := trace (snd submitted) |} in
  fst submitted = Ret tt /\
  trace (snd submitted) = trace w /\
  _pending_payload (self (snd submitted)) = Some p2 /\
  fst (_send_pending env_quiet connected) <> Hang /\
  trace (snd (_send_pending env_quiet connected)) =
    (trace w ++ [write_call p2])%list.
Proof.
  intros w p1 p2 c.
  apply (C4_coalescing env_quiet w p1 p2 c);
    [reflexivity | reflexivity | reflexivity | discriminate].
Defined.




(** C9, as the code has it: on a stopped session [request_battery] does
    nothing.  Otherwise, when there is no client it queues the message that
    the read waits for the connection and makes no transport call; when
    there is one it reads the battery characteristic and, when the read
    returns at least one byte, stores the first byte in [battery_pct] and
    queues a battery event with it, when the read returns no byte does
    nothing more, and when the read raises queues a warning. *)
Theorem C9_request_battery (env : Env) (w : World) :
  (_stopped (self w) = true -> request_battery env w = (Ret tt, w)) /\
  (_stopped (self w) = false -> _client (self w) = None ->
   request_battery env w =
     _queue_ui ("message", DStr "Battery read queued; waiting for connection") w) /\
  (forall c, _stopped (self w) = false -> _client (self w) = Some c ->
   let w1 := {| self := self w; trace := trace w ++ [battery_read] |} in
   request_battery env w =
     match reply env (List.length (trace w)) battery_read with
     | Returns (b :: _) =>
         _queue_ui ("battery", DInt (int_of_byte b))
           {| self := set_state
                        (set_battery_pct (Some (int_of_byte b)) (state (self w)))
                        (self w);
              trace := trace w1 |}
     | Returns [] => (Ret tt, w1)
     | Raises exc =>
         _queue_ui ("warn", DStr ("Initial battery read failed: " ++ exc)) w1
     | Cancelled => (Raise CancelledError, w1)
     end).
Proof.
  unfold request_battery, bind, get_self, ret.
  split; [intros ->; reflexivity|].
  split; [intros -> ->; reflexivity|].
  intros c -> ->.
  unfold _read_battery, bind, try_except, await, battery_read, lift, assign, ret.
  destruct (reply env _ _) as [[|b data]|exc|]; cbn; try reflexivity.
  unfold _queue_ui. cbn. destruct (put_nowait _ _); reflexivity.
Qed.

Lemma C9_request_battery_witness :
  let c := BleakClient_at "13:05:AA:05:6D:05" in
  let live := world_of (set_client (Some c) (PygameApp_ble "13:05:AA:05:6D:05")) in
  request_battery env_quiet (world_of (set_stopped true (self app_world)))
    = (Ret tt, world_of (set_stopped true (self app_world))) /\
  items (ui_queue (self (snd (request_battery env_quiet app_world)))) =
    [("message", DStr "Battery read queued; waiting for connection")] /\
  trace (snd (request_battery env_quiet app_world)) = [] /\
  (let w' := snd (request_battery (env_battery (Returns [x2a]%byte)) live) in
   trace w' = [battery_read] /\
   battery_pct (state (self w')) = Some 42 /\
   items (ui_queue (self w')) = [("battery", DInt 42)]) /\
  items (ui_queue (self (snd (request_battery (env_battery (Raises "timeout")) live))))
    = [("warn", DStr "Initial battery read failed: timeout")].
Proof.
  intros c live.
  destruct (C9_request_battery env_quiet
              (world_of (set_stopped true (self app_world)))) as (H1 & _ & _).
  destruct (C9_request_battery env_quiet app_world) as (_ & H2 & _).
  destruct (C9_request_battery (env_battery (Returns [x2a]%byte)) live)
    as (_ & _ & H3).
  destruct (C9_request_battery (env_battery (Raises "timeout")) live)
    as (_ & _ & H4).
  split; [apply H1; reflexivity|].
  rewrite (H2 eq_refl eq_refl), (H3 c eq_refl eq_refl), (H4 c eq_refl eq_refl).
  repeat split; reflexivity.
Defined.

(** C9 as the spec words it fails on a stopped session: without a client
    no message is queued there. *)
Lemma C9_counterexample :
  ~ (forall (env : Env) (w : World),
        _client (self w) = None ->
        exists text,
          In ("message", DStr text)
             (items (ui_queue (self (snd (request_battery env w)))))).
Proof.
  intros H.
  destruct (H env_quiet (world_of (set_stopped true (self app_world))) eq_refl)
    as [text Hin].
  vm_compute in Hin. exact Hin.
Qed.

(** * The event channel *)

Lemma queue_ui_full (item : QueueItem) (w : World) :
  full (ui_queue (self w)) = true -> _queue_ui item w = (Ret tt, w).
Proof.
  intros H. unfold _queue_ui. rewrite (put_nowait_full _ _ H). reflexivity.
Qed.

Lemma queue_ui_not_full (item : QueueItem) (w : World) :
  full (ui_queue (self w)) = false ->
  ui_queue (self (snd (_queue_ui item w))) =
    {| maxsize := maxsize (ui_queue (self w));
       items := items (ui_queue (self w)) ++ [item] |}.
Proof.
  intros H. unfold _queue_ui. rewrite (put_nowait_not_full _ _ H). reflexivity.
Qed.

Lemma queue_ui_maxsize (item : QueueItem) (w : World) :
  maxsize (ui_queue (self (snd (_queue_ui item w)))) = maxsize (ui_queue (self w)).
Proof.
  destruct (full (ui_queue (self w))) eqn:E.
  - rewrite (queue_ui_full _ _ E). reflexivity.
  - rewrite (queue_ui_not_full _ _ E). reflexivity.
Qed.

Lemma queue_all_unbounded (its : list QueueItem) (w : World) :
  maxsize (ui_queue (self w)) <= 0 ->
  items (ui_queue (self (queue_all its w))) = items (ui_queue (self w)) ++ its.
Proof.
  revert w. induction its as [|it its IH]; intros w Hm; cbn [queue_all fold_left].
  - rewrite app_nil_r. reflexivity.
  - change (fold_left _ its ?x) with (queue_all its x).
    rewrite IH by (rewrite queue_ui_maxsize; exact Hm).
    rewrite (queue_ui_not_full _ _ (unbounded_never_full _ Hm)). cbn [items].
    rewrite <- app_assoc. reflexivity.
Qed.

Lemma queue_all_bounded (its : list QueueItem) (w : World) :
  0 < maxsize (ui_queue (self w)) ->
  qsize (ui_queue (self w)) <= maxsize (ui_queue (self w)) ->
  items (ui_queue (self (queue_all its w))) =
    items (ui_queue (self w)) ++
    firstn (Z.to_nat (maxsize (ui_queue (self w)) - qsize (ui_queue (self w)))) its.
Proof.
  revert w. induction its as [|it its IH]; intros w Hm Hs;
    cbn [queue_all fold_left].
  - rewrite firstn_nil, app_nil_r. reflexivity.
  - change (fold_left _ its ?x) with (queue_all its x).
    destruct (full (ui_queue (self w))) eqn:E.
    + rewrite (queue_ui_full _ _ E). cbn [snd]. rewrite IH by assumption.
      unfold full in E. destruct (maxsize (ui_queue (self w)) <=? 0); [discriminate|].
      replace (Z.to_nat _) with 0%nat by lia. reflexivity.
    + pose proof (queue_ui_not_full it w E) as Hq.
      pose proof (queue_ui_maxsize it w) as Hmx.
      assert (Hlt : qsize (ui_queue (self w)) < maxsize (ui_queue (self w))).
      { unfold full in E.
        destruct (maxsize (ui_queue (self w)) <=? 0) eqn:E0; [lia|]. lia. }
      assert (Hsz : qsize (ui_queue (self (snd (_queue_ui it w)))) =
                    qsize (ui_queue (self w)) + 1).
      { rewrite Hq. unfold qsize. cbn [items]. rewrite length_app. cbn. lia. }
      rewrite IH by lia. rewrite Hmx, Hsz, Hq. cbn [items].
      replace (Z.to_nat (maxsize (ui_queue (self w)) - qsize (ui_queue (self w))))
        with (S (Z.to_nat (maxsize (ui_queue (self w))
                           - (qsize (ui_queue (self w)) + 1)))) by lia.
      cbn [firstn]. rewrite <- app_assoc. reflexivity.
Qed.

(** C8, as the code has it: the event channel is a FIFO queue whose bound
    is the [maxsize] it was made with.  [_queue_ui] never blocks and never
    raises; on a queue that is not full the event goes to the tail, on a
    full queue the event is dropped and nothing changes.  A queue made with
    a positive [maxsize] keeps at most that many events: of a run of events
    it takes the first ones that fit, in order.  The application makes its
    queue with [asyncio.Queue()], that is without a bound: it is never full,
    every event is appended and none is dropped. *)
Theorem C8_event_channel (item : QueueItem) (its : list QueueItem) (w : World) :
  let q := ui_queue (self w) in
  fst (_queue_ui item w) = Ret tt /\
  maxsize (ui_queue (self (snd (_queue_ui item w)))) = maxsize q /\
  (full q = true -> _queue_ui item w = (Ret tt, w)) /\
  (full q = false ->
   items (ui_queue (self (snd (_queue_ui item w)))) = items q ++ [item]) /\
  (0 < maxsize q -> qsize q <= maxsize q ->
   qsize (ui_queue (self (queue_all its w))) <= maxsize q /\
   items (ui_queue (self (queue_all its w))) =
     items q ++ firstn (Z.to_nat (maxsize q - qsize q)) its) /\
  (maxsize q <= 0 ->
   full q = false /\ items (ui_queue (self (queue_all its w))) = items q ++ its) /\
  maxsize PygameApp_ui_queue = 0.
Proof.
  intros q. unfold q.
  split; [apply queue_ui_returns|].
  split; [apply queue_ui_maxsize|].
  split; [apply queue_ui_full|].
  split; [intros E; rewrite (queue_ui_not_full _ _ E); reflexivity|].
  split; [|split; [|reflexivity]].
  - intros Hm Hs. pose proof (queue_all_bounded its w Hm Hs) as Hi.
    split; [|exact Hi].
    unfold qsize in *. rewrite Hi, length_app.
    pose proof (firstn_le_length
                  (Z.to_nat (maxsize (ui_queue (self w))
                             - Z.of_nat (List.length (items (ui_queue (self w))))))
                  its) as Hle.
    rewrite length_firstn in *. lia.
  - intros Hm. split; [apply unbounded_never_full; exact Hm|].
    apply queue_all_unbounded; exact Hm.
Qed.

Lemma C8_event_channel_witness :
  let bounded := world_of (BleController_init "13:05:AA:05:6D:05"
                             ControlState_default (Queue_new 2)) in
  let a := ("status", DNone) in
  let b := ("battery", DInt 42) in
  let c := ("connected", DNone) in
  items (ui_queue (self (queue_all [a; b; c] bounded))) = [a; b] /\
  _queue_ui c (queue_all [a; b] bounded) = (Ret tt, queue_all [a; b] bounded) /\
  items (ui_queue (self (snd (_queue_ui a bounded)))) = [a] /\
  items (ui_queue (self (queue_all [a; b; c] app_world))) = [a; b; c].
Proof.
  intros bounded a b c.
  destruct (C8_event_channel c [a; b; c] bounded) as (_ & _ & _ & _ & Hb & _).
  destruct (C8_event_channel c [] (queue_all [a; b] bounded))
    as (_ & _ & Hf & _).
  destruct (C8_event_channel a [] bounded) as (_ & _ & _ & Hn & _).
  destruct (C8_event_channel a [a; b; c] app_world)
    as (_ & _ & _ & _ & _ & Hu & _).
  split; [apply Hb; cbn; lia|].
  split; [apply Hf; reflexivity|].
  split; [apply Hn; reflexivity|].
  apply Hu. cbn. lia.
Defined.

(** C8 as the spec words it fails: the queue the application makes has no
    capacity that its length stays under. *)
Lemma C8_counterexample :
  ~ (exists capacity : nat,
       forall its : list QueueItem,
         (List.length (items (ui_queue (self (queue_all its app_world))))
          <= capacity)%nat).
Proof.
  intros [capacity H].
  specialize (H (repeat ("status", DNone) (S capacity))).
  rewrite queue_all_unbounded in H by (cbn; lia).
  cbn [app_world world_of self PygameApp_ble BleController_init ui_queue
       PygameApp_ui_queue Queue_new items app] in H.
  rewrite repeat_length in H. lia.
Qed.

(** * Steps of the world that every coroutine keeps to *)

Lemma queue_ext_refl (w : World) : queue_ext w w.
Proof.
  split; [reflexivity|]. exists []. rewrite app_nil_r. split; [reflexivity|].
  constructor.
Qed.

Lemma queue_ext_trans (w1 w2 w3 : World) :
  queue_ext w1 w2 -> queue_ext w2 w3 -> queue_ext w1 w3.
Proof.
  intros [Hm1 (e1 & He1 & Hf1)] [Hm2 (e2 & He2 & Hf2)].
  split; [congruence|]. exists (e1 ++ e2).
  rewrite He2, He1, app_assoc. split; [reflexivity|].
  apply Forall_app; split; assumption.
Qed.

Lemma calm_refl (w : World) : calm_step w w.
Proof. split; [apply queue_ext_refl|reflexivity]. Qed.

Lemma calm_trans (w1 w2 w3 : World) :
  calm_step w1 w2 -> calm_step w2 w3 -> calm_step w1 w3.
Proof.
  intros [Hq1 Hc1] [Hq2 Hc2].
  split; [eapply queue_ext_trans; eassumption|congruence].
Qed.

Lemma quiet_refl (w : World) : quiet_step w w.
Proof. split; [apply calm_refl|]. split; auto. Qed.

Lemma quiet_same_self (w w' : World) : self w' = self w -> quiet_step w w'.
Proof.
  intros H. unfold quiet_step, calm_step, queue_ext. rewrite H.
  split; [split; [split|]|split]; auto.
  exists []. rewrite app_nil_r. split; constructor.
Qed.

Lemma quiet_trans (w1 w2 w3 : World) :
  quiet_step w1 w2 -> quiet_step w2 w3 -> quiet_step w1 w3.
Proof.
  intros (Hc1 & Hs1 & Hb1) (Hc2 & Hs2 & Hb2).
  split; [eapply calm_trans; eassumption|]. split; auto.
Qed.

Lemma quiet_calm (w w' : World) : quiet_step w w' -> calm_step w w'.
Proof. intros [H _]. exact H. Qed.

Lemma Keeps_quiet_calm {A} (m : Task A) : Keeps quiet_step m -> Keeps calm_step m.
Proof. intros H w. apply quiet_calm, H. Qed.

Section Steps.

Variable R : World -> World -> Prop.
Hypothesis R_refl : forall w, R w w.
Hypothesis R_trans : forall w1 w2 w3, R w1 w2 -> R w2 w3 -> R w1 w3.

Lemma Keeps_ret {A} (a : A) : Keeps R (ret a).
Proof. intros w. apply R_refl. Qed.

Lemma Keeps_get_self : Keeps R get_self.
Proof. intros w. apply R_refl. Qed.

Lemma Keeps_lift {A} (name : string) (o : option A) : Keeps R (lift name o).
Proof. intros w. unfold lift. destruct o; apply R_refl. Qed.

Lemma Keeps_bind {A B} (m : Task A) (f : A -> Task B) :
  Keeps R m -> (forall a, Keeps R (f a)) -> Keeps R (bind m f).
Proof.
  intros Hm Hf w. unfold bind. specialize (Hm w).
  destruct (m w) as [[a|e|] w1]; cbn in *; [|assumption..].
  eapply R_trans; [exact Hm|apply Hf].
Qed.

Lemma Keeps_try_except {A} (body : Task A) (handler : string -> Task A) :
  Keeps R body -> (forall exc, Keeps R (handler exc)) ->
  Keeps R (try_except body handler).
Proof.
  intros Hm Hf w. unfold try_except. specialize (Hm w).
  destruct (body w) as [[a|[exc|]|] w1]; cbn in *; try assumption.
  eapply R_trans; [exact Hm|apply Hf].
Qed.

Lemma Keeps_try_finally {A} (body : Task A) (final : Task unit) :
  Keeps R body -> Keeps R final -> Keeps R (try_finally body final).
Proof.
  intros Hm Hf w. unfold try_finally. specialize (Hm w).
  destruct (body w) as [[a|e|] w1]; cbn in *; try assumption;
    specialize (Hf w1); destruct (final w1) as [[[]|e'|] w2]; cbn in *;
    eapply R_trans; eassumption.
Qed.

End Steps.

Lemma Keeps_queue_ui (item : QueueItem) :
  not_disconnected item -> Keeps quiet_step (_queue_ui item).
Proof.
  intros Hn w. unfold _queue_ui, put_nowait.
  destruct (full (ui_queue (self w))); cbn [snd]; [apply quiet_refl|].
  split; [split; [split|]|split]; cbn; auto.
  exists [item]. split; [reflexivity|].
  constructor; [exact Hn|constructor].
Qed.

Lemma Keeps_await (env : Env) (c : Call) : Keeps quiet_step (await env c).
Proof.
  intros w. unfold await.
  destruct (reply env _ _); cbn; apply quiet_same_self; reflexivity.
Qed.

Lemma Keeps_assign (f : BleController -> BleController) :
  quiet_update f -> Keeps quiet_step (assign f).
Proof.
  intros Hf w. destruct (Hf (self w)) as (Hq & Hc & Hs & Hb).
  unfold assign.
  split; [split; [split|]|split]; cbn; try assumption.
  - rewrite Hq. reflexivity.
  - exists []. rewrite Hq, app_nil_r. split; constructor.
Qed.

Ltac keeps_step R_refl R_trans :=
  first
    [ apply (Keeps_ret _ R_refl)
    | apply (Keeps_get_self _ R_refl)
    | apply (Keeps_lift _ R_refl)
    | apply (Keeps_bind _ R_trans); [|intros ?]
    | apply (Keeps_try_except _ R_trans); [|intros ?]
    | apply (Keeps_try_finally _ R_trans)
    | match goal with
      | |- Keeps _ (if ?c then _ else _) => destruct c
      | |- Keeps _ (match ?x with _ => _ end) => destruct x
      end ].

Ltac quiet :=
  repeat first
    [ assumption
    | apply Keeps_await
    | apply Keeps_queue_ui; unfold not_disconnected; cbn; discriminate
    | apply Keeps_assign; quiet_update
    | keeps_step quiet_refl quiet_trans ].

Section QuietCoroutines.

Variable env : Env.

Lemma Keeps_disable_notifications : Keeps quiet_step (_disable_notifications env).
Proof. unfold _disable_notifications. quiet. Qed.

Lemma Keeps_status_handler data : Keeps quiet_step (_status_handler data).
Proof. unfold _status_handler. quiet. Qed.

Lemma Keeps_battery_handler data : Keeps quiet_step (_battery_handler data).
Proof. unfold _battery_handler. quiet. Qed.

Lemma Keeps_read_battery c : Keeps quiet_step (_read_battery env c).
Proof. unfold _read_battery. quiet. Qed.

Lemma Keeps_write_one : Keeps quiet_step (write_one env).
Proof. unfold write_one. quiet. Qed.

Lemma Keeps_write_loop : Keeps quiet_step (write_loop env).
Proof.
  intros w. rewrite write_loop_once.
  destruct (pending_and_client w); [|apply quiet_refl].
  pose proof (Keeps_write_one w) as H.
  destruct (write_one env w) as [[c|e|] w']; exact H.
Qed.

Lemma Keeps_with_write_lock {A} (body : Task A) :
  Keeps quiet_step body -> Keeps quiet_step (with_write_lock body).
Proof.
  intros Hb w. unfold with_write_lock.
  destruct (_write_lock (self w)); [apply quiet_refl|].
  eapply quiet_trans;
    [|apply (Keeps_try_finally _ quiet_trans); [exact Hb|quiet]].
  apply (Keeps_assign (set_write_lock true)). quiet_update.
Qed.

Lemma Keeps_write_pending : Keeps quiet_step (_write_pending env).
Proof.
  unfold _write_pending.
  pose proof (Keeps_with_write_lock _ Keeps_write_loop). quiet.
Qed.

Lemma Keeps_send_pending : Keeps quiet_step (_send_pending env).
Proof. unfold _send_pending. pose proof Keeps_write_pending. quiet. Qed.

Lemma Keeps_send_control payload : Keeps quiet_step (send_control env payload).
Proof. unfold send_control. pose proof Keeps_write_pending. quiet. Qed.

Lemma Keeps_request_battery : Keeps quiet_step (request_battery env).
Proof.
  unfold request_battery. pose proof Keeps_read_battery. quiet.
Qed.

Lemma Keeps_stop : Keeps quiet_step (stop env).
Proof. unfold stop. pose proof Keeps_disable_notifications. quiet. Qed.

Lemma Keeps_other_task c : Keeps quiet_step (other_task env c).
Proof.
  intros w. unfold other_task. cbn [snd].
  destruct c;
    [apply Keeps_send_control | apply Keeps_request_battery | apply Keeps_stop
    | apply Keeps_status_handler | apply Keeps_battery_handler].
Qed.

Lemma Keeps_other_tasks cs : Keeps quiet_step (other_tasks env cs).
Proof.
  induction cs as [|c cs IH]; cbn [other_tasks]; [quiet|].
  pose proof (Keeps_other_task c). quiet.
Qed.

Lemma Keeps_stop_event_wait : Keeps quiet_step (stop_event_wait env).
Proof.
  intros w. unfold stop_event_wait.
  destruct (_stop_event (self w)); [apply quiet_refl|].
  pose proof (Keeps_other_tasks (during_wait env) w) as H.
  destruct (_stop_event _); [exact H|].
  destruct (wait_cancelled env); exact H.
Qed.

End QuietCoroutines.

(** * The exit paths of [run] *)

Section RunFacts.

Variable env : Env.
Hypothesis Hnc : unsubscribe_not_cancelled env.

Lemma disable_notifications_live (w : World) (c : BleakClient) :
  _client (self w) = Some c ->
  _disable_notifications env w =
    (Ret tt,
     {| self := set_battery_notify false (set_status_notify false (self w));
        trace := trace w ++ unsubscribe_calls (self w) |}).
Proof.
  intros Hc. destruct w as [s tr]. destruct s. cbn in Hc. subst.
  unfold _disable_notifications, unsubscribe_calls, bind, get_self,
    try_finally, try_except, await, assign, ret.
  cbn [self trace _client _status_notify _battery_notify].
  destruct _status_notify0, _battery_notify0; cbn;
    repeat match goal with
           | |- context [reply env ?k ?c] =>
               let E := fresh "E" in
               destruct (reply env k c) eqn:E;
               [| | exfalso; exact (Hnc _ _ E)]; cbn
           end;
    rewrite ?app_nil_r, <- ?app_assoc; reflexivity.
Qed.

Lemma disable_notifications_dead (w : World) :
  _client (self w) = None -> _disable_notifications env w = (Ret tt, w).
Proof.
  intros Hc. unfold _disable_notifications, bind, get_self. rewrite Hc.
  reflexivity.
Qed.

(** The [finally] block always runs to its end, leaves no client and no
    subscription flag, and queues ["disconnected"]. *)
Lemma teardown_ends (w : World) :
  (_client (self w) = None -> no_subscription (self w)) ->
  exists w1,
    teardown env w = _queue_ui ("disconnected", DNone) w1 /\
    ui_queue (self w1) = ui_queue (self w) /\
    _client (self w1) = None /\ no_subscription (self w1).
Proof.
  intros Hinv. unfold teardown, bind, assign.
  destruct (_client (self w)) as [c|] eqn:Hc.
  - rewrite (disable_notifications_live w c Hc). eexists.
    split; [reflexivity|]. cbn. repeat split.
  - rewrite (disable_notifications_dead w Hc). eexists.
    split; [reflexivity|]. cbn. destruct (Hinv eq_refl). repeat split; auto.
Qed.

End RunFacts.

Section AttemptFacts.

Variable env : Env.

Lemma Keeps_enable_notifications c :
  Keeps calm_step (_enable_notifications env c).
Proof.
  assert (Ha : forall call, Keeps calm_step (await env call))
    by (intros call; apply Keeps_quiet_calm, Keeps_await).
  assert (Hq : forall text, Keeps calm_step (_queue_ui ("warn", DStr text)))
    by (intros text; apply Keeps_quiet_calm, Keeps_queue_ui; discriminate).
  assert (Hf : forall f, (forall s, ui_queue (f s) = ui_queue s /\
                                    _client (f s) = _client s) ->
                         Keeps calm_step (assign f)).
  { intros f H w. destruct (H (self w)) as [H1 H2]. unfold assign.
    split; [split|]; cbn; [rewrite H1; reflexivity| |exact H2].
    exists []. rewrite H1, app_nil_r. split; constructor. }
  unfold _enable_notifications.
  repeat first
    [ apply Ha | apply Hq | apply Hf; intros s; cbn; auto
    | keeps_step calm_refl calm_trans ].
Qed.

(** What follows the assignment of the client in [session]. *)
Lemma Keeps_session_rest c :
  Keeps calm_step
    (bind (_queue_ui ("connected", DNone)) (fun _ =>
     bind (_enable_notifications env c) (fun _ =>
     bind (_send_pending env) (fun _ =>
     bind (_read_battery env c) (fun _ => stop_event_wait env))))).
Proof.
  apply (Keeps_bind _ calm_trans);
    [apply Keeps_quiet_calm, Keeps_queue_ui; discriminate|intros _].
  apply (Keeps_bind _ calm_trans);
    [apply Keeps_enable_notifications|intros _].
  apply (Keeps_bind _ calm_trans);
    [apply Keeps_quiet_calm, Keeps_send_pending|intros _].
  apply (Keeps_bind _ calm_trans);
    [apply Keeps_quiet_calm, Keeps_read_battery|intros _].
  apply Keeps_quiet_calm, Keeps_stop_event_wait.
Qed.

Lemma session_eq (c : BleakClient) (w : World) :
  session env c w =
    bind (_queue_ui ("connected", DNone)) (fun _ =>
    bind (_enable_notifications env c) (fun _ =>
    bind (_send_pending env) (fun _ =>
    bind (_read_battery env c) (fun _ => stop_event_wait env))))
      {| self := set_client (Some c) (self w); trace := trace w |}.
Proof. reflexivity. Qed.

Lemma quiet_keeps_dead (w w' : World) :
  quiet_step w w' -> dead_is_unsubscribed w -> dead_is_unsubscribed w'.
Proof.
  intros ([_ Hc] & Hs & Hb) Hd Hn. rewrite Hc in Hn.
  destruct (Hd Hn) as [Hs0 Hb0]. split.
  - destruct (_status_notify (self w')); [|reflexivity].
    rewrite <- Hs0. symmetry. auto.
  - destruct (_battery_notify (self w')); [|reflexivity].
    rewrite <- Hb0. symmetry. auto.
Qed.

Lemma async_with_ends (addr : string) (w : World) (r : Res unit) (w' : World) :
  dead_is_unsubscribed w ->
  async_with_client env addr (session env) w = (r, w') ->
  queue_ext w w' /\ dead_is_unsubscribed w'.
Proof.
  intros Hd. unfold async_with_client, bind, aenter.
  set (w0 := {| self := self w; trace := trace w ++ [connect addr] |}).
  pose proof (Keeps_other_tasks env (during_connect env) w0) as Hq.
  set (w1 := snd (other_tasks env (during_connect env) w0)) in *.
  assert (Hq0 : queue_ext w w1) by exact (proj1 (proj1 Hq)).
  assert (Hd1 : dead_is_unsubscribed w1)
    by exact (quiet_keeps_dead w0 w1 Hq Hd).
  destruct (reply env _ _) as [data|msg|];
    [|intros [= <- <-]; auto..].
  unfold try_finally. rewrite session_eq.
  set (c := BleakClient_at addr).
  set (wa := {| self := set_client (Some c) (self w1); trace := trace w1 |}).
  pose proof (Keeps_session_rest c wa) as [Hqb Hcb].
  match type of Hqb with
  | queue_ext _ (snd ?x) => destruct x as [rb wb]
  end.
  cbn [snd] in Hqb, Hcb. cbn [wa self set_client _client] in Hcb.
  assert (Hqw : queue_ext w wb)
    by (eapply queue_ext_trans; [exact Hq0|exact Hqb]).
  assert (Hdb : forall tr, dead_is_unsubscribed {| self := self wb; trace := tr |}).
  { intros tr Hn. cbn in Hn. congruence. }
  unfold bind, await, ret.
  destruct rb as [[]|e|];
    try match goal with
        | |- context [reply env ?k ?call] =>
            destruct (reply env k call) as [d|m|]
        end;
    intros [= <- <-]; split; try exact Hqw; try apply Hdb.
  intros Hn. congruence.
Qed.

Lemma attempt_ends (addr : string) (w : World) (r : Res unit) (w' : World) :
  dead_is_unsubscribed w ->
  attempt env addr w = (r, w') ->
  (r = Ret tt \/ r = Raise CancelledError \/ r = Hang) /\
  queue_ext w w' /\ dead_is_unsubscribed w'.
Proof.
  intros Hd. unfold attempt, try_except.
  destruct (async_with_client env addr (session env) w) as [ra wa] eqn:Ha.
  destruct (async_with_ends addr w ra wa Hd Ha) as [Hq Hda].
  destruct ra as [[]|[exc|]|]; try (intros [= <- <-]; auto).
  set (it := ("error", DStr ("Connection error: " ++ exc))).
  pose proof (Keeps_queue_ui it ltac:(discriminate) wa) as Hk.
  pose proof (queue_ui_returns it wa) as Hr.
  destruct (_queue_ui it wa) as [re we]. cbn [fst snd] in *.
  intros [= <- <-]. split; [auto|]. split.
  - eapply queue_ext_trans; [exact Hq|exact (proj1 (proj1 Hk))].
  - exact (quiet_keeps_dead wa we Hk Hda).
Qed.

End AttemptFacts.




(** * Further facts about the codec *)

Lemma int_of_byte_inj (a b : byte) : int_of_byte a = int_of_byte b -> a = b.
Proof.
  unfold int_of_byte. intros H. apply N2Z.inj in H.
  pose proof (Byte.of_to_N a) as Ha. rewrite H, Byte.of_to_N in Ha.
  congruence.
Qed.

Lemma flag_byte_inj (c1 c2 : bool) :
  (if c1 then x01 else x00)%byte = (if c2 then x01 else x00)%byte -> c1 = c2.
Proof. destruct c1, c2; intros H; try reflexivity; discriminate H. Qed.

Lemma sgn_tests (a b : Z) :
  Z.sgn a = Z.sgn b <-> (a >? 0) = (b >? 0) /\ (a <? 0) = (b <? 0).
Proof.
  destruct (a >? 0) eqn:A1, (b >? 0) eqn:B1, (a <? 0) eqn:A2, (b <? 0) eqn:B2;
    split; intros H; try (destruct H; discriminate); try (split; reflexivity);
    try lia.
Qed.

(** X1: only the sign of throttle and steering and the low byte of the
    mode reach the packet: two states have the same payload exactly when
    they agree on these and on the three switches. *)
Theorem X1_encode_same_payload (s1 s2 : ControlState) :
  build_control_payload s1 = build_control_payload s2 <->
  Z.land (mode s1) 255 = Z.land (mode s2) 255 /\
  Z.sgn (throttle s1) = Z.sgn (throttle s2) /\
  Z.sgn (steering s1) = Z.sgn (steering s2) /\
  lights s1 = lights s2 /\ turbo s1 = turbo s2 /\ donut s1 = donut s2.
Proof.
  destruct (build_control_payload_bytes s1) as (b1 & Hb1 & ->).
  destruct (build_control_payload_bytes s2) as (b2 & Hb2 & ->).
  rewrite !sgn_tests. split.
  - intros [= -> Ht1 Ht2 Hs1 Hs2 Hl Hu Hd].
    apply flag_byte_inj in Ht1, Ht2, Hs1, Hs2, Hl, Hu, Hd.
    repeat split; congruence.
  - intros (Hm & [Ht1 Ht2] & [Hs1 Hs2] & -> & -> & ->).
    rewrite Ht1, Ht2, Hs1, Hs2.
    assert (b1 = b2) by (apply int_of_byte_inj; congruence).
    congruence.
Qed.

(** X2: the label the screen shows for the throttle and the steering says
    what the packet says: Forward, Reverse, Left, Right exactly when the
    byte of that direction is 1, Stopped and Straight exactly when both
    bytes of the axis are 0. *)
Theorem X2_labels_agree_with_payload (st : ControlState) :
  exists b0 b1 b2 b3 b4 b5 b6 b7 : byte,
    build_control_payload st = Some [b0; b1; b2; b3; b4; b5; b6; b7] /\
    (throttle_label (throttle st) = "Forward" <-> int_of_byte b1 = 1) /\
    (throttle_label (throttle st) = "Reverse" <-> int_of_byte b2 = 1) /\
    (throttle_label (throttle st) = "Stopped" <->
       int_of_byte b1 = 0 /\ int_of_byte b2 = 0) /\
    (steering_label (steering st) = "Left" <-> int_of_byte b3 = 1) /\
    (steering_label (steering st) = "Right" <-> int_of_byte b4 = 1) /\
    (steering_label (steering st) = "Straight" <->
       int_of_byte b3 = 0 /\ int_of_byte b4 = 0).
Proof.
  destruct (build_control_payload_bytes st) as (b0 & _ & Hp).
  do 8 eexists. split; [exact Hp|].
  rewrite !int_of_flag_byte. unfold throttle_label, steering_label.
  destruct (throttle st >? 0) eqn:T1, (throttle st <? 0) eqn:T2,
           (steering st <? 0) eqn:S1, (steering st >? 0) eqn:S2;
    try lia;
    repeat split; intros; try discriminate; try lia; try reflexivity;
    match goal with H : _ /\ _ |- _ => destruct H; discriminate end.
Qed.

Lemma hex_cons (b : byte) (data : bytes) :
  hex (b :: data) =
    String (hex_digit (Byte.to_N b / 16))
      (String (hex_digit (Byte.to_N b mod 16)) (hex data)).
Proof. unfold hex. destruct data; reflexivity. Qed.

Lemma unhex_hex_byte (b : byte) :
  match unhex_digit (hex_digit (Byte.to_N b / 16)),
        unhex_digit (hex_digit (Byte.to_N b mod 16)) with
  | Some h, Some l => Byte.of_N (16 * h + l) = Some b
  | _, _ => False
  end.
Proof. destruct b; reflexivity. Qed.

(** The hex text of [bytes.hex()] reads back as the bytes. *)
Lemma unhex_hex (data : bytes) : unhex (hex data) = Some data.
Proof.
  induction data as [|b data IH]; [reflexivity|].
  rewrite hex_cons. cbn [unhex]. rewrite IH.
  pose proof (unhex_hex_byte b) as H.
  destruct (unhex_digit _); [|contradiction].
  destruct (unhex_digit _); [|contradiction].
  rewrite H. reflexivity.
Qed.

Lemma decode_length_entry (data : bytes) :
  exists d, decode_status_payload data = Some d /\
            dict_get d "length" = Some (VInt (len data)).
Proof.
  rewrite decode_status_payload_cases. eexists. split; [reflexivity|].
  destruct data as [|b0 [|b1 [|b2 [|b3 [|b4 [|b5 [|b6 [|b7 [|b8 rest]]]]]]]]];
    reflexivity.
Qed.

(** X3: the decoded dict keeps the whole notification: it always has the
    entry [length] with the number of bytes, and two payloads that decode to
    the same dict are the same bytes. *)
Theorem X3_decode_keeps_payload (a b : bytes) :
  (exists d, decode_status_payload a = Some d /\
             dict_get d "length" = Some (VInt (len a))) /\
  (decode_status_payload a = decode_status_payload b -> a = b).
Proof.
  split; [apply decode_length_entry|]. intros H.
  assert (Hlen : List.length a = List.length b).
  { destruct (decode_length_entry a) as (da & Ha & La).
    destruct (decode_length_entry b) as (db & Hb & Lb).
    rewrite Ha, Hb in H. injection H as ->. rewrite La in Lb.
    injection Lb as Hl. unfold len in Hl. lia. }
  destruct (Nat.eq_dec (List.length a) 1) as [E1|N1];
    [|destruct (Nat.eq_dec (List.length a) 8) as [E8|N8]].
  - destruct a as [|x [|]]; try discriminate E1.
    destruct b as [|y [|]]; try discriminate Hlen.
    cbn in H. injection H as H. apply int_of_byte_inj in H. congruence.
  - destruct a as [|a0 [|a1 [|a2 [|a3 [|a4 [|a5 [|a6 [|a7 [|]]]]]]]]];
      try discriminate E8.
    destruct b as [|c0 [|c1 [|c2 [|c3 [|c4 [|c5 [|c6 [|c7 [|]]]]]]]]];
      try discriminate Hlen.
    cbn in H. injection H as H0 H1 H2 H3 H4 H5 H6 H7.
    apply int_of_byte_inj in H0, H1, H2, H3, H4, H5, H6, H7. congruence.
  - rewrite (decode_other_length a N1 N8) in H.
    rewrite (decode_other_length b) in H by congruence.
    injection H as _ Hh.
    pose proof (unhex_hex a) as Ua. rewrite Hh, unhex_hex in Ua. congruence.
Qed.

(** * Further facts about the controller *)

Lemma steady_refl (w : World) : steady_step w w.
Proof.
  repeat split; auto. exists []. rewrite app_nil_r. reflexivity.
Qed.

Lemma steady_trans (w1 w2 w3 : World) :
  steady_step w1 w2 -> steady_step w2 w3 -> steady_step w1 w3.
Proof.
  intros ([t1 H1] & L1 & S1 & P1 & E1 & I1 & A1)
         ([t2 H2] & L2 & S2 & P2 & E2 & I2 & A2).
  split; [exists (t1 ++ t2); rewrite H2, H1, app_assoc; reflexivity|].
  repeat split; auto; congruence.
Qed.

(** A step that extends the trace and leaves the five fields alone. *)
Lemma steady_fields (w w' : World) (t : list Call) :
  trace w' = trace w ++ t ->
  _write_lock (self w') = _write_lock (self w) ->
  _last_sent_payload (self w') = _last_sent_payload (self w) ->
  _stopped (self w') = _stopped (self w) ->
  _stop_event (self w') = _stop_event (self w) ->
  address (self w') = address (self w) ->
  steady_step w w'.
Proof.
  intros Ht Hl Hs Hp He Ha.
  split; [exists t; exact Ht|]. split; [exact Hl|].
  split; [|split; [congruence|split; [congruence|split; [|exact Ha]]]].
  - intros H p Hp'. rewrite Ht. apply in_or_app. left. apply H. congruence.
  - unfold stopped_is_signalled. rewrite Hp, He. auto.
Qed.

Lemma Keeps_steady_await (env : Env) (c : Call) : Keeps steady_step (await env c).
Proof.
  intros w. unfold await.
  destruct (reply env _ _); cbn [snd];
    apply (steady_fields _ _ [c]); reflexivity.
Qed.

Lemma Keeps_steady_queue_ui (item : QueueItem) :
  Keeps steady_step (_queue_ui item).
Proof.
  intros w. unfold _queue_ui. destruct (put_nowait _ _); cbn [snd];
    [|apply steady_refl].
  apply (steady_fields _ _ []); try reflexivity. cbn. rewrite app_nil_r.
  reflexivity.
Qed.

Lemma Keeps_steady_assign (f : BleController -> BleController) :
  steady_update f -> Keeps steady_step (assign f).
Proof.
  intros Hf w. destruct (Hf (self w)) as (Hl & Hs & Hp & He & Ha).
  unfold assign. cbn [snd].
  apply (steady_fields _ _ []); cbn; try assumption. rewrite app_nil_r.
  reflexivity.
Qed.

Ltac steady_update := intros ?; cbn; repeat split.

Ltac steady :=
  repeat first
    [ assumption
    | match goal with H : _ |- _ => solve [apply H] end
    | apply Keeps_steady_await
    | apply Keeps_steady_queue_ui
    | apply Keeps_steady_assign; steady_update
    | keeps_step steady_refl steady_trans ].

Section SteadyCoroutines.

Variable env : Env.

Lemma write_one_some (w : World) (payload : bytes) :
  _pending_payload (self w) = Some payload ->
  write_one env w =
    match reply env (List.length (trace w)) (write_call payload) with
    | Returns _ =>
        (Ret Continue,
         snd (_queue_ui ("payload", DBytes payload) (recorded payload w)))
    | Raises exc =>
        (Ret Break,
         snd (_queue_ui ("error", DStr ("ERROR sending command: " ++ exc))
                (taken payload w)))
    | Cancelled => (Raise CancelledError, taken payload w)
    end.
Proof.
  intros Hp.
  unfold write_one, bind, get_self, assign, try_except, await, ret, write_call.
  rewrite Hp. cbn [self trace fst snd].
  destruct (reply env _ _); cbn [fst snd]; unfold _queue_ui;
    try destruct (put_nowait _ _); reflexivity.
Qed.

Lemma steady_taken (w : World) (payload : bytes) :
  steady_step w (taken payload w).
Proof. eapply steady_fields; reflexivity. Qed.

Lemma steady_recorded (w : World) (payload : bytes) :
  steady_step w (recorded payload w).
Proof.
  split; [eexists; reflexivity|]. split; [reflexivity|].
  split; [|repeat split; auto].
  intros _ p Hq. cbn in Hq. injection Hq as <-. cbn.
  apply in_or_app. right. left. reflexivity.
Qed.

Lemma Keeps_steady_write_one : Keeps steady_step (write_one env).
Proof.
  intros w.
  destruct (_pending_payload (self w)) as [payload|] eqn:Hp.
  - rewrite (write_one_some w payload Hp).
    destruct (reply env _ _); cbn [snd].
    + eapply steady_trans; [apply steady_recorded|apply Keeps_steady_queue_ui].
    + eapply steady_trans; [apply steady_taken|apply Keeps_steady_queue_ui].
    + apply steady_taken.
  - unfold write_one, bind, get_self. rewrite Hp. apply steady_refl.
Qed.

Lemma write_one_ends (w : World) : fst (write_one env w) <> Hang.
Proof.
  destruct (_pending_payload (self w)) as [payload|] eqn:Hp.
  - rewrite (write_one_some w payload Hp).
    destruct (reply env _ _); discriminate.
  - unfold write_one, bind, get_self. rewrite Hp. discriminate.
Qed.

Lemma write_loop_ends (w : World) : fst (write_loop env w) <> Hang.
Proof.
  rewrite write_loop_once. destruct (pending_and_client w); [|discriminate].
  pose proof (write_one_ends w) as H.
  destruct (write_one env w) as [[c|e|] w']; cbn in *;
    [discriminate|discriminate|contradiction].
Qed.

Lemma Keeps_steady_write_loop : Keeps steady_step (write_loop env).
Proof.
  intros w. rewrite write_loop_once.
  destruct (pending_and_client w); [|apply steady_refl].
  pose proof (Keeps_steady_write_one w) as H.
  destruct (write_one env w) as [[c|e|] w']; exact H.
Qed.

Lemma Keeps_steady_write_pending : Keeps steady_step (_write_pending env).
Proof.
  intros w. unfold _write_pending, bind, get_self, with_write_lock.
  destruct (is_none (_client (self w))); [apply steady_refl|].
  destruct (_write_lock (self w)) eqn:Hl; [apply steady_refl|].
  unfold try_finally, assign.
  set (w1 := {| self := set_write_lock true (self w); trace := trace w |}).
  pose proof (Keeps_steady_write_loop w1) as H.
  pose proof (write_loop_ends w1) as He.
  destruct (write_loop env w1) as [[[]|e|] w2]; cbn [fst snd] in *;
    try contradiction.
  all: destruct H as ([t Ht] & L & S & P & E & I & A).
  all: cbn [w1 self trace set_write_lock _write_lock _last_sent_payload
            _stopped _stop_event address] in *.
  all: split; [exists t; exact Ht|]; split; [cbn; congruence|].
  all: split; [intros Hs p Hq; apply (S Hs p); exact Hq|].
  all: split; [exact P|]; split; [exact E|]; split; [exact I|exact A].
Qed.

Lemma Keeps_steady_disable_notifications :
  Keeps steady_step (_disable_notifications env).
Proof. unfold _disable_notifications. steady. Qed.

Lemma Keeps_steady_enable_notifications c :
  Keeps steady_step (_enable_notifications env c).
Proof. unfold _enable_notifications. steady. Qed.

Lemma Keeps_steady_status_handler data :
  Keeps steady_step (_status_handler data).
Proof. unfold _status_handler. steady. Qed.

Lemma Keeps_steady_battery_handler data :
  Keeps steady_step (_battery_handler data).
Proof. unfold _battery_handler. steady. Qed.

Lemma Keeps_steady_read_battery c : Keeps steady_step (_read_battery env c).
Proof. unfold _read_battery. steady. Qed.

Lemma Keeps_steady_send_pending : Keeps steady_step (_send_pending env).
Proof. unfold _send_pending. pose proof Keeps_steady_write_pending. steady. Qed.

Lemma Keeps_steady_send_control payload :
  Keeps steady_step (send_control env payload).
Proof. unfold send_control. pose proof Keeps_steady_write_pending. steady. Qed.

Lemma Keeps_steady_request_battery : Keeps steady_step (request_battery env).
Proof. unfold request_battery. pose proof Keeps_steady_read_battery. steady. Qed.

Lemma steady_stopping (w : World) :
  steady_step w
    {| self := set_stop_event true (set_stopped true (self w));
       trace := trace w |}.
Proof.
  split; [exists []; cbn; rewrite app_nil_r; reflexivity|].
  repeat split; auto.
Qed.

Lemma Keeps_steady_stop : Keeps steady_step (stop env).
Proof.
  intros w. unfold stop, bind, get_self, assign.
  destruct (_stopped (self w)) eqn:Hs; [apply steady_refl|]. cbn [fst snd].
  eapply steady_trans; [apply steady_stopping|].
  apply Keeps_steady_disable_notifications.
Qed.

Lemma Keeps_steady_other_task c : Keeps steady_step (other_task env c).
Proof.
  intros w. unfold other_task. cbn [snd].
  destruct c;
    [ apply Keeps_steady_send_control | apply Keeps_steady_request_battery
    | apply Keeps_steady_stop | apply Keeps_steady_status_handler
    | apply Keeps_steady_battery_handler ].
Qed.

Lemma Keeps_steady_other_tasks cs : Keeps steady_step (other_tasks env cs).
Proof.
  induction cs as [|c cs IH]; cbn [other_tasks]; [steady|].
  pose proof (Keeps_steady_other_task c). steady.
Qed.

Lemma Keeps_steady_stop_event_wait : Keeps steady_step (stop_event_wait env).
Proof.
  intros w. unfold stop_event_wait.
  destruct (_stop_event (self w)); [apply steady_refl|].
  pose proof (Keeps_steady_other_tasks (during_wait env) w) as H.
  destruct (_stop_event _); [exact H|].
  destruct (wait_cancelled env); exact H.
Qed.

Lemma Keeps_steady_aenter addr : Keeps steady_step (aenter env addr).
Proof.
  intros w. unfold aenter.
  set (w0 := {| self := self w; trace := trace w ++ [connect addr] |}).
  pose proof (Keeps_steady_other_tasks (during_connect env) w0) as H.
  assert (H0 : steady_step w w0) by (eapply steady_fields; reflexivity).
  destruct (reply env _ _); cbn [snd]; eapply steady_trans; eassumption.
Qed.

Lemma Keeps_steady_session c : Keeps steady_step (session env c).
Proof.
  unfold session.
  pose proof (Keeps_steady_enable_notifications c).
  pose proof Keeps_steady_send_pending.
  pose proof (Keeps_steady_read_battery c).
  pose proof Keeps_steady_stop_event_wait.
  steady.
Qed.

Lemma Keeps_steady_teardown : Keeps steady_step (teardown env).
Proof.
  unfold teardown. pose proof Keeps_steady_disable_notifications. steady.
Qed.

Lemma Keeps_steady_attempt addr : Keeps steady_step (attempt env addr).
Proof.
  unfold attempt, async_with_client.
  pose proof (Keeps_steady_aenter addr). pose proof Keeps_steady_session.
  steady.
Qed.

Lemma Keeps_steady_run : Keeps steady_step (run env).
Proof.
  unfold run.
  pose proof Keeps_steady_attempt. pose proof Keeps_steady_teardown.
  steady.
Qed.

End SteadyCoroutines.

Lemma stop_sets_stopped (env : Env) (w : World) :
  _stopped (self (snd (stop env w))) = true.
Proof.
  unfold stop, bind, get_self, assign.
  destruct (_stopped (self w)) eqn:Hs; [exact Hs|]. cbn [fst snd].
  match goal with
  | |- context [_disable_notifications env ?x] =>
      destruct (Keeps_steady_disable_notifications env x)
        as (_ & _ & _ & P & _)
  end.
  apply P. reflexivity.
Qed.

Lemma stop_sets_event (env : Env) (w : World) :
  stopped_is_signalled w -> _stop_event (self (snd (stop env w))) = true.
Proof.
  intros Hi. unfold stop, bind, get_self, assign.
  destruct (_stopped (self w)) eqn:Hs; [apply Hi; exact Hs|]. cbn [fst snd].
  match goal with
  | |- context [_disable_notifications env ?x] =>
      destruct (Keeps_steady_disable_notifications env x)
        as (_ & _ & _ & _ & E & _)
  end.
  apply E. reflexivity.
Qed.



(** X5: once the controller is stopped, no call of the front end does
    anything: any run of [send_control], [request_battery] and [stop] calls
    leaves the world as it is, without a transport call and without an
    event. *)
Theorem X5_commands_after_stop (env : Env) (cs : list ApiCall) (w : World) :
  _stopped (self w) = true ->
  forallb is_command cs = true ->
  other_tasks env cs w = (Ret tt, w).
Proof.
  intros Hs. induction cs as [|c cs IH]; intros Hc; [reflexivity|].
  cbn in Hc. apply andb_true_iff in Hc. destruct Hc as [Hc Hcs].
  cbn [other_tasks]. unfold bind.
  assert (H1 : other_task env c w = (Ret tt, w)).
  { unfold other_task.
    destruct c; try discriminate Hc;
      unfold send_control, request_battery, stop, bind, get_self;
      rewrite Hs; reflexivity. }
  rewrite H1. apply IH. exact Hcs.
Qed.

Lemma X5_commands_after_stop_witness :
  let w := snd (stop env_quiet live_world) in
  other_tasks env_quiet
    [Call_send_control [x01; x01]%byte; Call_request_battery; Call_stop] w
  = (Ret tt, w).
Proof.
  intros w. apply X5_commands_after_stop; reflexivity.
Defined.

(** The outcome of one [_queue_ui] in the goal: it returns, and it leaves
    the trace and every field but the queue. *)
Ltac open_queue_ui :=
  match goal with
  | |- context [_queue_ui ?it ?x] =>
      let Hr := fresh "Hr" in
      let Ht := fresh "Ht" in
      let Hf := fresh "Hf" in
      pose proof (queue_ui_returns it x) as Hr;
      pose proof (queue_ui_trace it x) as Ht;
      pose proof (queue_ui_fields it x) as Hf;
      cbv zeta in Hf;
      destruct (_queue_ui it x) as [? ?]; cbn [fst snd] in Hr, Ht, Hf; subst
  end.

(** What [_enable_notifications] does, by the answers to its two calls. *)
Lemma enable_notifications_outcome (env : Env) (c : BleakClient) (w : World) :
  let r1 := reply env (List.length (trace w)) status_start in
  let r2 := reply env (S (List.length (trace w))) battery_start in
  let w' := snd (_enable_notifications env c w) in
  r1 <> Cancelled ->
  trace w' = trace w ++ [status_start; battery_start] /\
  _status_notify (self w') =
    match r1 with Returns _ => true | _ => _status_notify (self w) end /\
  _battery_notify (self w') =
    match r2 with Returns _ => true | _ => _battery_notify (self w) end /\
  (r2 <> Cancelled -> fst (_enable_notifications env c w) = Ret tt).
Proof.
  intros r1 r2 w' H1. subst r1 r2 w'.
  unfold _enable_notifications, bind, try_except, await, assign,
    status_start, battery_start in *.
  destruct (reply env (List.length (trace w)) _) as [d1|m1|] eqn:E1;
    [| |contradiction]; cbn [fst snd self trace].
  - rewrite length_app. cbn [List.length]. rewrite Nat.add_1_r.
    destruct (reply env (S _) _) as [d2|m2|]; cbn [fst snd self trace];
      unfold _queue_ui; try destruct (put_nowait _ _); cbn;
      rewrite <- ?app_assoc; repeat split; intros;
      first [ reflexivity
            | exfalso;
              match goal with H : ?x <> ?x |- _ => apply H; reflexivity end ].
  - open_queue_ui. cbn [fst snd self trace]. rewrite Ht. cbn [trace].
    rewrite length_app. cbn [List.length]. rewrite Nat.add_1_r.
    destruct Hf as (_ & _ & _ & _ & _ & _ & Fs & Fb). cbn [self] in Fs, Fb.
    destruct (reply env (S _) _) as [d2|m2|]; cbn [fst snd self trace];
      try open_queue_ui; cbn [fst snd self trace set_battery_notify
                              _status_notify _battery_notify];
      rewrite ?Ht0, ?Ht; cbn [trace]; rewrite <- ?app_assoc;
      try (destruct Hf as (_ & _ & _ & _ & _ & _ & Fs' & Fb');
           rewrite ?Fs', ?Fb');
      rewrite ?Fs, ?Fb; repeat split; intros;
      first [ reflexivity
            | cbn [self]; assumption
            | exfalso;
              match goal with H : ?x <> ?x |- _ => apply H; reflexivity end ].
Qed.

(** X6: the two subscriptions are tried one after the other and neither
    depends on the other: unless the task is cancelled in the first call,
    both [start_notify] calls are made, and each flag is raised exactly when
    its own call returned; a failed call leaves its flag as it was. *)
Theorem X6_subscriptions_independent (env : Env) (c : BleakClient) (w : World) :
  let r1 := reply env (List.length (trace w)) status_start in
  let r2 := reply env (S (List.length (trace w))) battery_start in
  let w' := snd (_enable_notifications env c w) in
  r1 <> Cancelled ->
  trace w' = trace w ++ [status_start; battery_start] /\
  _status_notify (self w') =
    match r1 with Returns _ => true | _ => _status_notify (self w) end /\
  _battery_notify (self w') =
    match r2 with Returns _ => true | _ => _battery_notify (self w) end /\
  (r2 <> Cancelled -> fst (_enable_notifications env c w) = Ret tt).
Proof.
  intros r1 r2 w' H1.
  exact (enable_notifications_outcome env c w H1).
Qed.

Lemma X6_subscriptions_independent_witness :
  let c := BleakClient_at "13:05:AA:05:6D:05" in
  let w' := snd (_enable_notifications env_status_refused c live_world) in
  trace w' = [status_start; battery_start] /\
  _status_notify (self w') = false /\
  _battery_notify (self w') = true /\
  fst (_enable_notifications env_status_refused c live_world) = Ret tt.
Proof.
  intros c w'.
  destruct (X6_subscriptions_independent env_status_refused c live_world)
    as (Ht & Hs & Hb & Hr); [discriminate|].
  split; [exact Ht|]. split; [exact Hs|]. split; [exact Hb|].
  apply Hr. discriminate.
Defined.

Lemma send_control_live (env : Env) (w : World) (c : BleakClient) (p : bytes) :
  _stopped (self w) = false ->
  _client (self w) = Some c ->
  _last_sent_payload (self w) <> Some p \/ _pending_payload (self w) <> None ->
  send_control env p w =
    _write_pending env
      {| self := set_pending_payload (Some p) (self w); trace := trace w |}.
Proof.
  intros Hs Hc Hn. unfold send_control, bind, get_self, assign. rewrite Hs.
  assert (E : eq_optional p (_last_sent_payload (self w))
              && is_none (_pending_payload (self w)) = false).
  { destruct Hn as [Hn|Hn].
    - destruct (_last_sent_payload (self w)) as [l|]; [|reflexivity].
      cbn. rewrite bytes_eqb_neq by congruence. reflexivity.
    - destruct (_pending_payload (self w)); [|contradiction].
      apply andb_false_r. }
  rewrite E. cbn [fst snd self set_pending_payload _client]. rewrite Hc.
  reflexivity.
Qed.




(** X9: the payload recorded as last sent is always one that was handed
    to the transport: this holds after [__init__] and is kept by every call
    of another task and by [run], whatever the transport answers. *)
Theorem X9_last_sent_was_written (env : Env) (cs : list ApiCall) (w : World) :
  sent_was_written w ->
  sent_was_written (snd (other_tasks env cs w)) /\
  sent_was_written (snd (run env (snd (other_tasks env cs w)))).
Proof.
  intros H.
  destruct (Keeps_steady_other_tasks env cs w) as (_ & _ & S1 & _).
  destruct (Keeps_steady_run env (snd (other_tasks env cs w)))
    as (_ & _ & S2 & _).
  auto.
Qed.

Lemma X9_last_sent_was_written_witness :
  let p := [x01; x01]%byte in
  let w := snd (run env_stopped
                  (snd (other_tasks env_stopped [Call_send_control p] app_world))) in
  _last_sent_payload (self w) = Some p /\ In (write_call p) (trace w).
Proof.
  intros p w.
  destruct (X9_last_sent_was_written env_stopped [Call_send_control p] app_world)
    as [_ H]; [intros q Hq; discriminate Hq|].
  split; [reflexivity|]. apply H. reflexivity.
Defined.

(** X10: no coroutine of the controller takes back a stop or keeps the
    write lock: after any calls of other tasks and after [run], a stopped
    controller is still stopped, a set stop event is still set, and the
    write lock is as it was found. *)
Theorem X10_stop_is_final (env : Env) (cs : list ApiCall) (w : World) :
  let w1 := snd (other_tasks env cs w) in
  let w2 := snd (run env w) in
  (_stopped (self w) = true ->
   _stopped (self w1) = true /\ _stopped (self w2) = true) /\
  (_stop_event (self w) = true ->
   _stop_event (self w1) = true /\ _stop_event (self w2) = true) /\
  _write_lock (self w1) = _write_lock (self w) /\
  _write_lock (self w2) = _write_lock (self w).
Proof.
  destruct (Keeps_steady_other_tasks env cs w) as (_ & L1 & _ & P1 & E1 & _).
  destruct (Keeps_steady_run env w) as (_ & L2 & _ & P2 & E2 & _).
  cbv zeta. auto 10.
Qed.

Lemma X10_stop_is_final_witness :
  let w := snd (stop env_quiet app_world) in
  _stopped (self (snd (run env_quiet w))) = true /\
  _stop_event (self (snd (run env_quiet w))) = true /\
  _stopped
    (self (snd (other_tasks env_quiet [Notify_battery [x2a]%byte] w))) = true.
Proof.
  intros w.
  destruct (X10_stop_is_final env_quiet [Notify_battery [x2a]%byte] w)
    as (Hs & He & _).
  destruct (Hs eq_refl) as [H1 H2]. destruct (He eq_refl) as [_ H3]. auto.
Defined.

(** * Which coroutines come to an end *)

Create HintDb steady discriminated.

#[local] Hint Resolve
  Keeps_steady_write_pending Keeps_steady_disable_notifications
  Keeps_steady_enable_notifications Keeps_steady_status_handler
  Keeps_steady_battery_handler Keeps_steady_read_battery
  Keeps_steady_send_pending Keeps_steady_send_control
  Keeps_steady_request_battery Keeps_steady_stop
  Keeps_steady_stop_event_wait Keeps_steady_session Keeps_steady_teardown
  : steady.

Ltac steady_known := solve [auto with steady | steady].

Section EndsFacts.

Variable env : Env.
Variable P : World -> Prop.
Hypothesis P_steady : forall w w', P w -> steady_step w w' -> P w'.
Hypothesis P_lock : forall w, P w -> lock_free w.

Lemma Ends_ret {A} (a : A) : Ends P (ret a).
Proof. intros w _. discriminate. Qed.

Lemma Ends_get_self : Ends P get_self.
Proof. intros w _. discriminate. Qed.

Lemma Ends_lift {A} (name : string) (o : option A) : Ends P (lift name o).
Proof. intros w _. unfold lift. destruct o; discriminate. Qed.

Lemma Ends_assign (f : BleController -> BleController) : Ends P (assign f).
Proof. intros w _. discriminate. Qed.

Lemma Ends_await (c : Call) : Ends P (await env c).
Proof. intros w _. unfold await. destruct (reply env _ _); discriminate. Qed.

Lemma Ends_queue_ui (item : QueueItem) : Ends P (_queue_ui item).
Proof. intros w _. rewrite queue_ui_returns. discriminate. Qed.

Lemma Ends_bind {A B} (m : Task A) (f : A -> Task B) :
  Ends P m -> Keeps steady_step m -> (forall a, Ends P (f a)) ->
  Ends P (bind m f).
Proof.
  intros Hm Hk Hf w Hw. unfold bind.
  specialize (Hm w Hw). specialize (Hk w).
  destruct (m w) as [[a|e|] w1]; cbn [fst snd] in *;
    [|discriminate|contradiction].
  apply Hf. eapply P_steady; eassumption.
Qed.

Lemma Ends_try_except {A} (body : Task A) (handler : string -> Task A) :
  Ends P body -> Keeps steady_step body -> (forall exc, Ends P (handler exc)) ->
  Ends P (try_except body handler).
Proof.
  intros Hm Hk Hf w Hw. unfold try_except.
  specialize (Hm w Hw). specialize (Hk w).
  destruct (body w) as [[a|[exc|]|] w1]; cbn [fst snd] in *;
    try discriminate; [|contradiction].
  apply Hf. eapply P_steady; eassumption.
Qed.

Lemma Ends_try_finally {A} (body : Task A) (final : Task unit) :
  Ends P body -> Keeps steady_step body -> Ends P final ->
  Ends P (try_finally body final).
Proof.
  intros Hm Hk Hf w Hw. unfold try_finally.
  specialize (Hm w Hw). specialize (Hk w).
  destruct (body w) as [[a|e|] w1]; cbn [fst snd] in *; try contradiction;
    specialize (Hf w1 (P_steady _ _ Hw Hk));
    destruct (final w1) as [[[]|e'|] w2]; cbn [fst] in *;
    try discriminate; contradiction.
Qed.

Lemma Ends_write_pending : Ends P (_write_pending env).
Proof.
  intros w Hw. apply P_lock in Hw. unfold lock_free in Hw.
  unfold _write_pending, bind, get_self, with_write_lock, try_finally, assign.
  destruct (is_none (_client (self w))); [discriminate|]. rewrite Hw.
  match goal with
  | |- context [write_loop env ?x] =>
      pose proof (write_loop_ends env x) as H;
      destruct (write_loop env x) as [[[]|e|] w2]
  end; cbn in *; try discriminate. contradiction.
Qed.

End EndsFacts.

Ltac ends_step P_steady :=
  first
    [ apply Ends_ret | apply Ends_get_self | apply Ends_lift
    | apply Ends_assign | apply Ends_await | apply Ends_queue_ui
    | apply (Ends_bind _ P_steady); [| steady_known | intros ?]
    | apply (Ends_try_except _ P_steady); [| steady_known | intros ?]
    | apply (Ends_try_finally _ P_steady); [| steady_known |]
    | match goal with
      | |- Ends _ (if ?c then _ else _) => destruct c
      | |- Ends _ (match ?x with _ => _ end) => destruct x
      end ].

Ltac ends P_steady :=
  repeat first
    [ assumption
    | match goal with H : _ |- _ => solve [apply H] end
    | ends_step P_steady ].

Section EndsCoroutines.

Variable env : Env.
Variable P : World -> Prop.
Hypothesis P_steady : forall w w', P w -> steady_step w w' -> P w'.
Hypothesis P_lock : forall w, P w -> lock_free w.

Lemma Ends_disable_notifications : Ends P (_disable_notifications env).
Proof. unfold _disable_notifications. ends P_steady. Qed.

Lemma Ends_enable_notifications c : Ends P (_enable_notifications env c).
Proof. unfold _enable_notifications. ends P_steady. Qed.

Lemma Ends_status_handler data : Ends P (_status_handler data).
Proof. unfold _status_handler. ends P_steady. Qed.

Lemma Ends_battery_handler data : Ends P (_battery_handler data).
Proof. unfold _battery_handler. ends P_steady. Qed.

Lemma Ends_read_battery c : Ends P (_read_battery env c).
Proof. unfold _read_battery. ends P_steady. Qed.

Lemma Ends_send_pending : Ends P (_send_pending env).
Proof.
  unfold _send_pending.
  pose proof (Ends_write_pending env P P_lock). ends P_steady.
Qed.

Lemma Ends_send_control payload : Ends P (send_control env payload).
Proof.
  unfold send_control.
  pose proof (Ends_write_pending env P P_lock). ends P_steady.
Qed.

Lemma Ends_request_battery : Ends P (request_battery env).
Proof. unfold request_battery. pose proof Ends_read_battery. ends P_steady. Qed.

Lemma Ends_stop : Ends P (stop env).
Proof.
  intros w Hw. unfold stop, bind, get_self, assign.
  destruct (_stopped (self w)); [discriminate|]. cbn [fst snd].
  apply Ends_disable_notifications.
  exact (P_steady w _ Hw (steady_stopping w)).
Qed.

Lemma Ends_teardown : Ends P (teardown env).
Proof. unfold teardown. pose proof Ends_disable_notifications. ends P_steady. Qed.

End EndsCoroutines.

Lemma lock_free_steady (w w' : World) :
  lock_free w -> steady_step w w' -> lock_free w'.
Proof. unfold lock_free. intros H (_ & L & _). congruence. Qed.

(** X11: with the write lock free, no call on the controller blocks:
    [send_control], [request_battery], [stop] and the two notification
    handlers each return or raise, and leave the lock free for the next. *)
Theorem X11_calls_do_not_block (env : Env) (c : ApiCall) (w : World) :
  lock_free w ->
  let m := match c with
           | Call_send_control payload => send_control env payload
           | Call_request_battery => request_battery env
           | Call_stop => stop env
           | Notify_status data => _status_handler data
           | Notify_battery data => _battery_handler data
           end in
  fst (m w) <> Hang /\ lock_free (snd (m w)).
Proof.
  intros Hw m. split.
  - subst m. destruct c;
      [ apply (Ends_send_control env lock_free lock_free_steady)
      | apply (Ends_request_battery env lock_free lock_free_steady)
      | apply (Ends_stop env lock_free lock_free_steady)
      | apply (Ends_status_handler lock_free lock_free_steady)
      | apply (Ends_battery_handler lock_free lock_free_steady) ];
      auto.
  - apply (lock_free_steady w); [exact Hw|].
    exact (Keeps_steady_other_task env c w).
Qed.

Lemma X11_calls_do_not_block_witness :
  fst (send_control env_write_fails [x01]%byte live_world) <> Hang /\
  lock_free (snd (send_control env_write_fails [x01]%byte live_world)).
Proof.
  apply (X11_calls_do_not_block env_write_fails
           (Call_send_control [x01]%byte) live_world).
  reflexivity.
Defined.

Lemma other_tasks_cons (env : Env) (c : ApiCall) (cs : list ApiCall) (w : World) :
  other_tasks env (c :: cs) w = other_tasks env cs (snd (other_task env c w)).
Proof. reflexivity. Qed.

Lemma stop_call_signals (env : Env) (cs : list ApiCall) (w : World) :
  stopped_is_signalled w -> In Call_stop cs ->
  _stop_event (self (snd (other_tasks env cs w))) = true.
Proof.
  revert w. induction cs as [|c cs IH]; intros w Hi Hin; [contradiction|].
  rewrite other_tasks_cons. destruct Hin as [->|Hin].
  - destruct (Keeps_steady_other_tasks env cs (snd (other_task env Call_stop w)))
      as (_ & _ & _ & _ & E & _).
    apply E. exact (stop_sets_event env w Hi).
  - apply IH; [|exact Hin].
    destruct (Keeps_steady_other_task env c w) as (_ & _ & _ & _ & _ & I & _).
    auto.
Qed.

Lemma wait_will_end_steady (env : Env) (w w' : World) :
  wait_will_end env w -> steady_step w w' -> wait_will_end env w'.
Proof.
  intros (Hl & Hi & Hc) Hs. pose proof (lock_free_steady w w' Hl Hs) as Hl'.
  destruct Hs as (_ & _ & _ & _ & E & I & _).
  split; [exact Hl'|]. split; [auto|].
  destruct Hc as [Hc|Hc]; [left; auto|right; exact Hc].
Qed.

Lemma wait_will_end_lock (env : Env) (w : World) :
  wait_will_end env w -> lock_free w.
Proof. intros [H _]. exact H. Qed.

Lemma Ends_stop_event_wait (env : Env) :
  Ends (wait_will_end env) (stop_event_wait env).
Proof.
  intros w (_ & Hi & Hc). unfold stop_event_wait.
  destruct (_stop_event (self w)) eqn:He; [cbn; congruence|].
  destruct Hc as [Hc|[Hc|Hc]]; [congruence| |].
  - rewrite (stop_call_signals env _ w Hi Hc). cbn. congruence.
  - rewrite Hc. destruct (_stop_event (self (snd _))); cbn; congruence.
Qed.

Lemma Ends_session (env : Env) (c : BleakClient) :
  Ends (wait_will_end env) (session env c).
Proof.
  pose proof (Ends_enable_notifications env _ (wait_will_end_steady env) c).
  pose proof (Ends_send_pending env _ (wait_will_end_steady env)
                (wait_will_end_lock env)).
  pose proof (Ends_read_battery env _ (wait_will_end_steady env) c).
  pose proof (Ends_stop_event_wait env).
  unfold session. ends (wait_will_end_steady env).
Qed.

(** X12: a session that somebody stops or cancels comes to an end: when
    the stop event is set already, or another task calls [stop] during the
    connection attempt or during the wait, or the wait is cancelled, [run]
    returns or raises, whatever the transport answers; the write lock is
    free and a stopped controller has its event set, as after [__init__]. *)
Theorem X12_run_ends (env : Env) (w : World) :
  run_will_end env w -> fst (run env w) <> Hang.
Proof.
  intros (Hl & Hi & Hc).
  unfold run, bind, get_self.
  set (it := ("message", DStr ("Connecting to " ++ address (self w) ++ "..."))).
  pose proof (queue_ui_returns it w) as Hr.
  pose proof (Keeps_steady_queue_ui it w) as Hs1.
  destruct (_queue_ui it w) as [r1 w1]. cbn [fst snd] in *. subst r1.
  set (addr := address (self w)).
  assert (Hl1 : lock_free w1) by exact (lock_free_steady _ _ Hl Hs1).
  assert (Ha : fst (attempt env addr w1) <> Hang).
  { unfold attempt, try_except, async_with_client, bind, aenter.
    set (w0 := {| self := self w1; trace := trace w1 ++ [connect addr] |}).
    pose proof (Keeps_steady_other_tasks env (during_connect env) w0) as Hs2.
    assert (Hs0 : steady_step w w0).
    { eapply steady_trans; [exact Hs1|]. eapply steady_fields; reflexivity. }
    assert (Hw2 : wait_will_end env (snd (other_tasks env (during_connect env) w0))).
    { pose proof (steady_trans _ _ _ Hs0 Hs2) as Hs.
      split; [exact (lock_free_steady _ _ Hl Hs)|].
      destruct Hs as (_ & _ & _ & _ & E & I & _). split; [auto|].
      destruct Hc as [Hc|[Hc|Hc]]; [left; auto| |right; exact Hc].
      left. apply stop_call_signals; [|exact Hc].
      destruct Hs0 as (_ & _ & _ & _ & _ & I0 & _). auto. }
    set (w2 := snd (other_tasks env (during_connect env) w0)) in *.
    destruct (reply env _ _) as [d|msg|]; cbn [fst snd].
    - assert (He : Ends (wait_will_end env)
                     (try_finally (session env (BleakClient_at addr))
                        (bind (await env disconnect) (fun _ => ret tt)))).
      { pose proof (Ends_session env (BleakClient_at addr)).
        ends (wait_will_end_steady env). }
      specialize (He w2 Hw2).
      destruct (try_finally _ _ w2) as [[[]|[exc|]|] w3]; cbn [fst] in *;
        try discriminate; [|contradiction].
      rewrite queue_ui_returns. discriminate.
    - rewrite queue_ui_returns. discriminate.
    - discriminate. }
  pose proof (Keeps_steady_attempt env addr w1) as Hs3.
  unfold try_finally.
  destruct (attempt env addr w1) as [[[]|e|] w4]; cbn [fst snd] in *;
    try contradiction.
  all: pose proof (Ends_teardown env lock_free lock_free_steady w4
                     (lock_free_steady _ _ Hl1 Hs3)) as Ht.
  all: destruct (teardown env w4) as [[[]|e'|] w5]; cbn [fst] in *;
    try discriminate; contradiction.
Qed.

Lemma X12_run_ends_witness :
  fst (run env_stopped app_world) <> Hang /\
  fst (run env_cancelled app_world) <> Hang /\
  fst (run env_cancel_in_teardown app_world) <> Hang.
Proof.
  assert (Hi : stopped_is_signalled app_world) by (intros H; discriminate H).
  split; [|split]; apply X12_run_ends; (split; [reflexivity|split; [exact Hi|]]).
  - right. right. left. left. reflexivity.
  - right. right. right. reflexivity.
  - right. left. left. reflexivity.
Defined.

(** X13: a failed connection attempt ends the session at once and in
    order: [run] returns normally, the events queued after the start message
    are what the other tasks queued meanwhile, then the connection error,
    then ["disconnected"]; no notification is subscribed or unsubscribed and
    no other transport call is made; what the other tasks did to the
    controller meanwhile, a buffered payload included, stays. *)
Theorem X13_connection_failure (env : Env) (w : World) (msg : string) :
  _client (self w) = None ->
  reply env (List.length (trace w)) (connect (address (self w))) = Raises msg ->
  let w1 := snd (_queue_ui
                   ("message",
                    DStr ("Connecting to " ++ address (self w) ++ "...")) w) in
  let w2 := snd (other_tasks env (during_connect env)
                   {| self := self w1;
                      trace := trace w ++ [connect (address (self w))] |}) in
  let w3 := snd (_queue_ui ("error", DStr ("Connection error: " ++ msg)) w2) in
  run env w = _queue_ui ("disconnected", DNone) w3 /\
  fst (run env w) = Ret tt /\
  trace (snd (run env w)) = trace w2 /\
  _pending_payload (self (snd (run env w))) = _pending_payload (self w2).
Proof.
  intros Hc Hr w1 w2 w3.
  assert (Hrun : run env w = _queue_ui ("disconnected", DNone) w3).
  { unfold run, bind, get_self.
    pose proof (queue_ui_returns
                  ("message", DStr ("Connecting to " ++ address (self w) ++ "..."))
                  w) as Hret.
    pose proof (queue_ui_trace
                  ("message", DStr ("Connecting to " ++ address (self w) ++ "..."))
                  w) as Htr.
    fold w1 in Htr. 
    destruct (_queue_ui _ w) as [r1 w1'] eqn:E1. cbn [fst snd] in *.
    subst r1. subst w1.
    unfold try_finally, attempt, try_except, async_with_client, bind, aenter.
    rewrite Htr, Hr. fold w2. cbn [fst snd].
    pose proof (queue_ui_returns ("error", DStr ("Connection error: " ++ msg)) w2)
      as Hret2.
    fold w3. destruct (_queue_ui _ w2) as [r3 w3'] eqn:E3.
    cbn [fst snd] in *. subst r3. subst w3.
    assert (Hc3 : _client (self w3') = None).
    { pose proof (Keeps_queue_ui ("error", DStr ("Connection error: " ++ msg))
                    ltac:(discriminate) w2) as ([_ C3] & _).
      rewrite E3 in C3. cbn [snd] in C3. rewrite C3.
      pose proof (Keeps_other_tasks env (during_connect env)
                    {| self := self w1';
                       trace := trace w ++ [connect (address (self w))] |})
        as ([_ C2] & _).
      fold w2 in C2. rewrite C2. cbn [self].
      pose proof (queue_ui_fields
                    ("message",
                     DStr ("Connecting to " ++ address (self w) ++ "...")) w)
        as (C1 & _).
      rewrite E1 in C1. cbn in C1. congruence. }
    unfold teardown, bind, assign.
    rewrite (disable_notifications_dead env w3' Hc3). cbn [fst snd].
    assert (Hid : {| self := set_client None (self w3'); trace := trace w3' |}
                  = w3').
    { destruct w3' as [s tr]. destruct s. cbn in Hc3 |- *. subst. reflexivity. }
    rewrite Hid.
    pose proof (queue_ui_returns ("disconnected", DNone) w3') as Hret3.
    destruct (_queue_ui ("disconnected", DNone) w3') as [r4 w4].
    cbn [fst] in Hret3. subst r4. reflexivity. }
  rewrite Hrun, queue_ui_returns, queue_ui_trace.
  pose proof (queue_ui_fields ("disconnected", DNone) w3) as (_ & F1 & _).
  pose proof (queue_ui_fields ("error", DStr ("Connection error: " ++ msg)) w2)
    as (_ & F2 & _).
  cbv zeta in F1, F2. fold w3 in F2.
  repeat split; [unfold w3; apply queue_ui_trace|congruence].
Qed.

Lemma X13_connection_failure_witness :
  let env := {| reply := reply env_no_connection;
                during_connect := [Call_send_control [x01; x01]%byte];
                during_wait := []; wait_cancelled := false |} in
  fst (run env app_world) = Ret tt /\
  trace (snd (run env app_world)) = [connect "13:05:AA:05:6D:05"] /\
  _pending_payload (self (snd (run env app_world))) = Some [x01; x01]%byte /\
  items (ui_queue (self (snd (run env app_world)))) =
    [("message", DStr "Connecting to 13:05:AA:05:6D:05...");
     ("error", DStr "Connection error: Device not found");
     ("disconnected", DNone)].
Proof.
  intros env.
  destruct (X13_connection_failure env app_world "Device not found")
    as (Hrun & Hr & Ht & Hp); [reflexivity | reflexivity |].
  split; [exact Hr|]. split; [rewrite Ht; reflexivity|].
  split; [rewrite Hp; reflexivity|].
  rewrite Hrun. reflexivity.
Defined.

Lemma slot_kept_refl (w : World) : slot_kept w w.
Proof. reflexivity. Qed.

Lemma slot_kept_trans (w1 w2 w3 : World) :
  slot_kept w1 w2 -> slot_kept w2 w3 -> slot_kept w1 w3.
Proof. unfold slot_kept. congruence. Qed.

Lemma Keeps_slot_enable_notifications (env : Env) (c : BleakClient) :
  Keeps slot_kept (_enable_notifications env c).
Proof.
  assert (Ha : forall call, Keeps slot_kept (await env call)).
  { intros call w. unfold await. destruct (reply env _ _); reflexivity. }
  assert (Hq : forall it, Keeps slot_kept (_queue_ui it)).
  { intros it w. unfold slot_kept.
    destruct (queue_ui_fields it w) as (_ & H & _). exact H. }
  unfold _enable_notifications.
  repeat first
    [ apply Ha | apply Hq
    | match goal with
      | |- Keeps slot_kept (assign _) => intros w; reflexivity
      end
    | keeps_step slot_kept_refl slot_kept_trans ].
Qed.



(** * The keyboard front end *)

Lemma key_in_add_same (k : string) (s : list string) :
  key_in k (key_add k s) = true.
Proof.
  unfold key_add. destruct (key_in k s) eqn:E; [exact E|].
  cbn. rewrite String.eqb_refl. reflexivity.
Qed.

Lemma key_in_add_other (k k' : string) (s : list string) :
  k <> k' -> key_in k (key_add k' s) = key_in k s.
Proof.
  intros H. unfold key_add. destruct (key_in k' s); [reflexivity|].
  cbn. apply String.eqb_neq in H. rewrite H. reflexivity.
Qed.

Lemma key_in_discard_same (k : string) (s : list string) :
  key_in k (key_discard k s) = false.
Proof.
  unfold key_in, key_discard.
  induction s as [|x s IH]; [reflexivity|]. cbn.
  destruct (String.eqb k x) eqn:E; cbn; [exact IH|]. rewrite E. exact IH.
Qed.

Lemma key_in_discard_other (k k' : string) (s : list string) :
  k <> k' -> key_in k (key_discard k' s) = key_in k s.
Proof.
  intros H. unfold key_in, key_discard.
  induction s as [|x s IH]; [reflexivity|]. cbn.
  destruct (String.eqb k' x) eqn:E; cbn.
  - apply String.eqb_eq in E. subst x.
    apply String.eqb_neq in H. rewrite H. exact IH.
  - rewrite IH. reflexivity.
Qed.

Lemma with_state_id (w : World) : with_state (fun _ => state (self w)) w = w.
Proof. destruct w as [s tr]. destruct s. reflexivity. Qed.

Lemma command_step_refl (w : World) : command_step w w.
Proof.
  exists (state (self w)). rewrite with_state_id.
  do 5 (split; [reflexivity|]). intros H. exact H.
Qed.

Lemma command_step_trans (w1 w2 w3 : World) :
  command_step w1 w2 -> command_step w2 w3 -> command_step w1 w3.
Proof.
  intros (s2 & -> & B2 & P2 & S2 & H2 & C2) (s3 & -> & B3 & P3 & S3 & H3 & C3).
  cbn in *. exists s3. split; [reflexivity|].
  do 4 (split; [congruence|]). auto.
Qed.

(** An assignment to command fields or to the message. *)
Lemma command_step_with_state (f : ControlState -> ControlState) (w : World) :
  (forall st, battery_pct (f st) = battery_pct st /\
              last_payload (f st) = last_payload st /\
              last_status (f st) = last_status st /\
              last_status_hex (f st) = last_status_hex st) ->
  (command_ok (state (self w)) -> command_ok (f (state (self w)))) ->
  command_step w (with_state f w).
Proof.
  intros Hf Hc. destruct (Hf (state (self w))) as (B & P & S & H).
  exists (f (state (self w))). split; [reflexivity|].
  do 4 (split; [assumption|]). exact Hc.
Qed.

Lemma spawn_send_total (w : World) :
  exists p, build_control_payload (state (self w)) = Some p /\
            PygameApp.spawn_send w = Some [Spawn_send_control p].
Proof.
  destruct (build_control_payload_bytes (state (self w))) as (b0 & _ & H).
  eexists. unfold PygameApp.spawn_send. rewrite H. split; reflexivity.
Qed.

Lemma update_throttle_step (a : PygameApp.t) (w : World) :
  command_step w (snd (PygameApp._update_throttle_from_keys a w)).
Proof.
  unfold PygameApp._update_throttle_from_keys.
  match goal with |- context [negb (?v =? _)] => set (nv := v) end.
  assert (Hv : nv = -1 \/ nv = 0 \/ nv = 1).
  { subst nv. repeat match goal with
                     | |- context [if ?c then _ else _] => destruct c
                     end; auto. }
  destruct (negb (nv =? throttle (state (self w)))); [|apply command_step_refl].
  cbn [snd]. apply command_step_with_state; [intros st; repeat split|].
  intros (_ & Hs & Hm). repeat split; auto.
Qed.

Lemma update_steering_step (a : PygameApp.t) (w : World) :
  command_step w (snd (PygameApp._update_steering_from_keys a w)).
Proof.
  unfold PygameApp._update_steering_from_keys.
  match goal with |- context [negb (?v =? _)] => set (nv := v) end.
  assert (Hv : nv = -1 \/ nv = 0 \/ nv = 1).
  { subst nv. repeat match goal with
                     | |- context [if ?c then _ else _] => destruct c
                     end; auto. }
  destruct (negb (nv =? steering (state (self w)))); [|apply command_step_refl].
  cbn [snd]. apply command_step_with_state; [intros st; repeat split|].
  intros (Ht & _ & Hm). repeat split; auto.
Qed.

Lemma toggle_press_step (key_name : string) (w : World) :
  exists w' ts, PygameApp._handle_toggle_press key_name w = Some (w', ts) /\
                command_step w w'.
Proof.
  unfold PygameApp._handle_toggle_press.
  repeat match goal with
         | |- context [if String.eqb key_name ?k then _ else _] =>
             destruct (String.eqb key_name k)
         end.
  all: try match goal with
           | |- context [PygameApp.spawn_send ?x] =>
               destruct (spawn_send_total x) as (p & _ & ->)
           end.
  all: do 2 eexists; split; [reflexivity|].
  all: try apply command_step_refl.
  all: try (eapply command_step_trans;
            apply command_step_with_state;
            [ intros st; repeat split | | intros st; repeat split | ]).
  all: try (apply command_step_with_state; [intros st; repeat split|]).
  all: cbn; try (intros (Ht & Hs & Hm); repeat split; auto).
  destruct (mode (state (self w)) =? 1); auto.
Qed.

Ltac open_update :=
  match goal with
  | |- context [PygameApp._update_throttle_from_keys ?a ?w] =>
      let H := fresh "Hstep" in
      pose proof (update_throttle_step a w) as H;
      destruct (PygameApp._update_throttle_from_keys a w) as [[|] ?];
      cbn [snd] in H
  | |- context [PygameApp._update_steering_from_keys ?a ?w] =>
      let H := fresh "Hstep" in
      pose proof (update_steering_step a w) as H;
      destruct (PygameApp._update_steering_from_keys a w) as [[|] ?];
      cbn [snd] in H
  end.

Ltac open_spawn :=
  match goal with
  | |- context [PygameApp.spawn_send ?x] =>
      let p := fresh "p" in
      destruct (spawn_send_total x) as (p & _ & ->)
  end.

Lemma handle_keydown_step (key_name : string) (a : PygameApp.t) (w : World) :
  exists a' w' ts,
    PygameApp.handle_keydown key_name a w = Some (a', w', ts) /\
    command_step w w'.
Proof.
  unfold PygameApp.handle_keydown.
  destruct (negb (PygameApp.running a));
    [do 3 eexists; split; [reflexivity|apply command_step_refl]|].
  destruct (key_in key_name ["w"; "s"]).
  { open_update; try open_spawn; do 3 eexists; split; try reflexivity;
      assumption. }
  destruct (key_in key_name ["a"; "d"]).
  { open_update; try open_spawn; do 3 eexists; split; try reflexivity;
      assumption. }
  destruct (key_in key_name ["l"; "t"; "o"; "m"; "b"; "q"]);
    [|do 3 eexists; split; [reflexivity|apply command_step_refl]].
  destruct (negb (key_in key_name (PygameApp.toggle_keys_down a)));
    [|do 3 eexists; split; [reflexivity|apply command_step_refl]].
  destruct (toggle_press_step key_name w) as (w' & ts & -> & Hs).
  do 3 eexists. split; [reflexivity|exact Hs].
Qed.

Lemma handle_keyup_step (key_name : string) (a : PygameApp.t) (w : World) :
  exists a' w' ts,
    PygameApp.handle_keyup key_name a w = Some (a', w', ts) /\
    command_step w w'.
Proof.
  unfold PygameApp.handle_keyup.
  destruct (key_in key_name (PygameApp.throttle_keys_down a)).
  { open_update; try open_spawn;
      match goal with
      | |- context [key_in key_name (PygameApp.toggle_keys_down ?x)] =>
          destruct (key_in key_name (PygameApp.toggle_keys_down x))
      end; do 3 eexists; split; try reflexivity; assumption. }
  destruct (key_in key_name (PygameApp.steering_keys_down a)).
  { open_update; try open_spawn;
      match goal with
      | |- context [key_in key_name (PygameApp.toggle_keys_down ?x)] =>
          destruct (key_in key_name (PygameApp.toggle_keys_down x))
      end; do 3 eexists; split; try reflexivity; assumption. }
  destruct (key_in key_name (PygameApp.toggle_keys_down a));
    do 3 eexists; split; try reflexivity; apply command_step_refl.
Qed.

(** X15: the key handlers never raise, and all they do to the world is to
    assign command fields and the message of the shared state: the trace,
    the other fields of the controller and the telemetry fields of the state
    are untouched, and a command the keyboard can produce (throttle and
    steering in -1, 0, 1, mode 1 or 2) stays one. *)
Theorem X15_key_handlers_keep_command
    (key_name : string) (a : PygameApp.t) (w : World) :
  (exists a' w' ts,
     PygameApp.handle_keydown key_name a w = Some (a', w', ts) /\
     command_step w w') /\
  (exists a' w' ts,
     PygameApp.handle_keyup key_name a w = Some (a', w', ts) /\
     command_step w w') /\
  command_ok ControlState_default.
Proof.
  split; [apply handle_keydown_step|]. split; [apply handle_keyup_step|].
  unfold command_ok. cbn. auto.
Qed.

Lemma throttle_after_update (a : PygameApp.t) (w : World) :
  throttle (state (self (snd (PygameApp._update_throttle_from_keys a w)))) =
    if key_in "w" (PygameApp.throttle_keys_down a)
       && key_in "s" (PygameApp.throttle_keys_down a)
    then (if is_key (PygameApp.last_throttle_key a) "w" then 1 else -1)
    else if key_in "w" (PygameApp.throttle_keys_down a) then 1
    else if key_in "s" (PygameApp.throttle_keys_down a) then -1
    else 0.
Proof.
  unfold PygameApp._update_throttle_from_keys.
  match goal with |- context [negb (?v =? _)] => set (nv := v) end.
  destruct (nv =? throttle (state (self w))) eqn:E; cbn; [|reflexivity].
  apply Z.eqb_eq in E. symmetry. exact E.
Qed.

Lemma steering_after_update (a : PygameApp.t) (w : World) :
  steering (state (self (snd (PygameApp._update_steering_from_keys a w)))) =
    if key_in "a" (PygameApp.steering_keys_down a)
       && key_in "d" (PygameApp.steering_keys_down a)
    then (if is_key (PygameApp.last_steering_key a) "a" then -1 else 1)
    else if key_in "a" (PygameApp.steering_keys_down a) then -1
    else if key_in "d" (PygameApp.steering_keys_down a) then 1
    else 0.
Proof.
  unfold PygameApp._update_steering_from_keys.
  match goal with |- context [negb (?v =? _)] => set (nv := v) end.
  destruct (nv =? steering (state (self w))) eqn:E; cbn; [|reflexivity].
  apply Z.eqb_eq in E. symmetry. exact E.
Qed.

Lemma keydown_throttle_world (k : string) (a : PygameApp.t) (w : World)
    (a' : PygameApp.t) (w' : World) (ts : list Spawned) :
  PygameApp.running a = true -> key_in k ["w"; "s"] = true ->
  PygameApp.handle_keydown k a w = Some (a', w', ts) ->
  w' = snd (PygameApp._update_throttle_from_keys
              (PygameApp.set_throttle_keys
                 (key_add k (PygameApp.throttle_keys_down a)) (Some k) a) w).
Proof.
  intros Hr Hk. unfold PygameApp.handle_keydown. rewrite Hr, Hk. cbn [negb].
  destruct (PygameApp._update_throttle_from_keys _ w) as [[|] w1]; cbn [snd];
    [destruct (spawn_send_total w1) as (p & _ & ->)|]; intros [= _ <- _];
    reflexivity.
Qed.

Lemma keyup_throttle_world (k : string) (a : PygameApp.t) (w : World)
    (a' : PygameApp.t) (w' : World) (ts : list Spawned) :
  key_in k (PygameApp.throttle_keys_down a) = true ->
  PygameApp.handle_keyup k a w = Some (a', w', ts) ->
  w' = snd (PygameApp._update_throttle_from_keys
              (PygameApp.set_throttle_keys
                 (key_discard k (PygameApp.throttle_keys_down a))
                 (PygameApp.last_throttle_key a) a) w).
Proof.
  intros Hk. unfold PygameApp.handle_keyup. rewrite Hk.
  destruct (PygameApp._update_throttle_from_keys _ w) as [[|] w1]; cbn [snd];
    [destruct (spawn_send_total w1) as (p & _ & ->)|];
    match goal with
    | |- context [key_in k (PygameApp.toggle_keys_down ?x)] =>
        destruct (key_in k (PygameApp.toggle_keys_down x))
    end; intros [= _ <- _]; reflexivity.
Qed.

(** X16: the throttle follows the keys.  While the application runs, the
    direction key just pressed wins whatever else is down: after a key-down
    of [w] the throttle is 1, after a key-down of [s] it is -1.  When a
    throttle key that was down is released, the throttle falls back to the
    other key if that one is still down, and to 0 if not. *)
Theorem X16_throttle_follows_keys
    (a : PygameApp.t) (w : World) (a' : PygameApp.t) (w' : World)
    (ts : list Spawned) :
  (PygameApp.running a = true ->
   PygameApp.handle_keydown "w" a w = Some (a', w', ts) ->
   throttle (state (self w')) = 1) /\
  (PygameApp.running a = true ->
   PygameApp.handle_keydown "s" a w = Some (a', w', ts) ->
   throttle (state (self w')) = -1) /\
  (key_in "w" (PygameApp.throttle_keys_down a) = true ->
   PygameApp.handle_keyup "w" a w = Some (a', w', ts) ->
   throttle (state (self w')) =
     if key_in "s" (PygameApp.throttle_keys_down a) then -1 else 0) /\
  (key_in "s" (PygameApp.throttle_keys_down a) = true ->
   PygameApp.handle_keyup "s" a w = Some (a', w', ts) ->
   throttle (state (self w')) =
     if key_in "w" (PygameApp.throttle_keys_down a) then 1 else 0).
Proof.
  split; [|split; [|split]].
  - intros Hr H. rewrite (keydown_throttle_world "w" _ _ _ _ _ Hr eq_refl H).
    rewrite throttle_after_update. cbn [PygameApp.set_throttle_keys
      PygameApp.throttle_keys_down PygameApp.last_throttle_key is_key].
    rewrite key_in_add_same. cbn.
    destruct (key_in "s" _); reflexivity.
  - intros Hr H. rewrite (keydown_throttle_world "s" _ _ _ _ _ Hr eq_refl H).
    rewrite throttle_after_update. cbn [PygameApp.set_throttle_keys
      PygameApp.throttle_keys_down PygameApp.last_throttle_key is_key].
    rewrite key_in_add_same. cbn.
    destruct (key_in "w" _); reflexivity.
  - intros Hk H. rewrite (keyup_throttle_world _ _ _ _ _ _ Hk H).
    rewrite throttle_after_update. cbn [PygameApp.set_throttle_keys
      PygameApp.throttle_keys_down PygameApp.last_throttle_key].
    rewrite key_in_discard_same, key_in_discard_other by discriminate.
    cbn. reflexivity.
  - intros Hk H. rewrite (keyup_throttle_world _ _ _ _ _ _ Hk H).
    rewrite throttle_after_update. cbn [PygameApp.set_throttle_keys
      PygameApp.throttle_keys_down PygameApp.last_throttle_key].
    rewrite key_in_discard_same, key_in_discard_other by discriminate.
    rewrite andb_false_r. reflexivity.
Qed.

Lemma X16_throttle_follows_keys_witness :
  let both := PygameApp.set_throttle_keys ["s"; "w"] (Some "s") app_running in
  let back := with_state (set_throttle (-1)) live_world in
  (exists a' w' ts,
     PygameApp.handle_keydown "w" app_running live_world = Some (a', w', ts) /\
     throttle (state (self w')) = 1) /\
  (exists a' w' ts,
     PygameApp.handle_keydown "s" app_running live_world = Some (a', w', ts) /\
     throttle (state (self w')) = -1) /\
  (exists a' w' ts,
     PygameApp.handle_keyup "s" both back = Some (a', w', ts) /\
     throttle (state (self w')) = 1) /\
  (exists a' w' ts,
     PygameApp.handle_keyup "w" both back = Some (a', w', ts) /\
     throttle (state (self w')) = -1).
Proof.
  intros both back.
  split; [|split; [|split]]; do 3 eexists; (split; [reflexivity|]).
  - eapply (proj1 (X16_throttle_follows_keys app_running live_world _ _ _));
      reflexivity.
  - eapply (proj1 (proj2 (X16_throttle_follows_keys app_running live_world _ _ _)));
      reflexivity.
  - etransitivity;
      [eapply (proj2 (proj2 (proj2 (X16_throttle_follows_keys both back _ _ _))));
       reflexivity|reflexivity].
  - etransitivity;
      [eapply (proj1 (proj2 (proj2 (X16_throttle_follows_keys both back _ _ _))));
       reflexivity|reflexivity].
Defined.

Lemma keydown_steering_world (k : string) (a : PygameApp.t) (w : World)
    (a' : PygameApp.t) (w' : World) (ts : list Spawned) :
  PygameApp.running a = true -> key_in k ["w"; "s"] = false ->
  key_in k ["a"; "d"] = true ->
  PygameApp.handle_keydown k a w = Some (a', w', ts) ->
  w' = snd (PygameApp._update_steering_from_keys
              (PygameApp.set_steering_keys
                 (key_add k (PygameApp.steering_keys_down a)) (Some k) a) w).
Proof.
  intros Hr Hn Hk. unfold PygameApp.handle_keydown. rewrite Hr, Hn, Hk.
  cbn [negb].
  destruct (PygameApp._update_steering_from_keys _ w) as [[|] w1]; cbn [snd];
    [destruct (spawn_send_total w1) as (p & _ & ->)|]; intros [= _ <- _];
    reflexivity.
Qed.

Lemma keyup_steering_world (k : string) (a : PygameApp.t) (w : World)
    (a' : PygameApp.t) (w' : World) (ts : list Spawned) :
  key_in k (PygameApp.throttle_keys_down a) = false ->
  key_in k (PygameApp.steering_keys_down a) = true ->
  PygameApp.handle_keyup k a w = Some (a', w', ts) ->
  w' = snd (PygameApp._update_steering_from_keys
              (PygameApp.set_steering_keys
                 (key_discard k (PygameApp.steering_keys_down a))
                 (PygameApp.last_steering_key a) a) w).
Proof.
  intros Hn Hk. unfold PygameApp.handle_keyup. rewrite Hn, Hk.
  destruct (PygameApp._update_steering_from_keys _ w) as [[|] w1]; cbn [snd];
    [destruct (spawn_send_total w1) as (p & _ & ->)|];
    match goal with
    | |- context [key_in k (PygameApp.toggle_keys_down ?x)] =>
        destruct (key_in k (PygameApp.toggle_keys_down x))
    end; intros [= _ <- _]; reflexivity.
Qed.

(** X17: the steering follows the keys in the same way: after a key-down
    of [a] it is -1 (left), after a key-down of [d] it is 1 (right); when a
    steering key that was down is released (and is not also held as a
    throttle key), the steering falls back to the other key if that one is
    still down, and to 0 if not. *)
Theorem X17_steering_follows_keys
    (a : PygameApp.t) (w : World) (a' : PygameApp.t) (w' : World)
    (ts : list Spawned) :
  (PygameApp.running a = true ->
   PygameApp.handle_keydown "a" a w = Some (a', w', ts) ->
   steering (state (self w')) = -1) /\
  (PygameApp.running a = true ->
   PygameApp.handle_keydown "d" a w = Some (a', w', ts) ->
   steering (state (self w')) = 1) /\
  (key_in "a" (PygameApp.throttle_keys_down a) = false ->
   key_in "a" (PygameApp.steering_keys_down a) = true ->
   PygameApp.handle_keyup "a" a w = Some (a', w', ts) ->
   steering (state (self w')) =
     if key_in "d" (PygameApp.steering_keys_down a) then 1 else 0) /\
  (key_in "d" (PygameApp.throttle_keys_down a) = false ->
   key_in "d" (PygameApp.steering_keys_down a) = true ->
   PygameApp.handle_keyup "d" a w = Some (a', w', ts) ->
   steering (state (self w')) =
     if key_in "a" (PygameApp.steering_keys_down a) then -1 else 0).
Proof.
  split; [|split; [|split]].
  - intros Hr H.
    rewrite (keydown_steering_world "a" _ _ _ _ _ Hr eq_refl eq_refl H).
    rewrite steering_after_update. cbn [PygameApp.set_steering_keys
      PygameApp.steering_keys_down PygameApp.last_steering_key is_key].
    rewrite key_in_add_same. cbn.
    destruct (key_in "d" _); reflexivity.
  - intros Hr H.
    rewrite (keydown_steering_world "d" _ _ _ _ _ Hr eq_refl eq_refl H).
    rewrite steering_after_update. cbn [PygameApp.set_steering_keys
      PygameApp.steering_keys_down PygameApp.last_steering_key is_key].
    rewrite key_in_add_same. cbn.
    destruct (key_in "a" _); reflexivity.
  - intros Hn Hk H. rewrite (keyup_steering_world _ _ _ _ _ _ Hn Hk H).
    rewrite steering_after_update. cbn [PygameApp.set_steering_keys
      PygameApp.steering_keys_down PygameApp.last_steering_key].
    rewrite key_in_discard_same, key_in_discard_other by discriminate.
    cbn. reflexivity.
  - intros Hn Hk H. rewrite (keyup_steering_world _ _ _ _ _ _ Hn Hk H).
    rewrite steering_after_update. cbn [PygameApp.set_steering_keys
      PygameApp.steering_keys_down PygameApp.last_steering_key].
    rewrite key_in_discard_same, key_in_discard_other by discriminate.
    rewrite andb_false_r. reflexivity.
Qed.

Lemma X17_steering_follows_keys_witness :
  let both := PygameApp.set_steering_keys ["d"; "a"] (Some "d") app_running in
  let right := with_state (set_steering 1) live_world in
  (exists a' w' ts,
     PygameApp.handle_keydown "a" app_running live_world = Some (a', w', ts) /\
     steering (state (self w')) = -1) /\
  (exists a' w' ts,
     PygameApp.handle_keydown "d" app_running live_world = Some (a', w', ts) /\
     steering (state (self w')) = 1) /\
  (exists a' w' ts,
     PygameApp.handle_keyup "d" both right = Some (a', w', ts) /\
     steering (state (self w')) = -1) /\
  (exists a' w' ts,
     PygameApp.handle_keyup "a" both right = Some (a', w', ts) /\
     steering (state (self w')) = 1).
Proof.
  intros both right.
  split; [|split; [|split]]; do 3 eexists; (split; [reflexivity|]).
  - eapply (proj1 (X17_steering_follows_keys app_running live_world _ _ _));
      reflexivity.
  - eapply (proj1 (proj2 (X17_steering_follows_keys app_running live_world _ _ _)));
      reflexivity.
  - etransitivity;
      [eapply (proj2 (proj2 (proj2 (X17_steering_follows_keys both right _ _ _))));
       reflexivity|reflexivity].
  - etransitivity;
      [eapply (proj1 (proj2 (proj2 (X17_steering_follows_keys both right _ _ _))));
       reflexivity|reflexivity].
Defined.

Lemma toggle_key_cases (k : string) :
  key_in k ["l"; "t"; "o"; "m"; "b"; "q"] = true ->
  k = "l" \/ k = "t" \/ k = "o" \/ k = "m" \/ k = "b" \/ k = "q".
Proof.
  unfold key_in. cbn. intros H.
  repeat (apply orb_true_iff in H; destruct H as [H|H];
          [apply String.eqb_eq in H; auto 10|]).
  discriminate H.
Qed.

(** X18: a toggle key acts once for each press.  While the application
    runs, a key-down of one of [l], [t], [o], [m], [b], [q] that is not held
    creates exactly one task; the repeated key-down while the key is held
    changes nothing and creates nothing; after its key-up the key is no
    longer held, so that the next press acts again. *)
Theorem X18_toggle_once_per_press
    (k : string) (a : PygameApp.t) (w : World)
    (a1 : PygameApp.t) (w1 : World) (ts1 : list Spawned) :
  PygameApp.running a = true ->
  key_in k ["l"; "t"; "o"; "m"; "b"; "q"] = true ->
  PygameApp.handle_keydown k a w = Some (a1, w1, ts1) ->
  (key_in k (PygameApp.toggle_keys_down a) = false -> List.length ts1 = 1%nat) /\
  key_in k (PygameApp.toggle_keys_down a1) = true /\
  PygameApp.handle_keydown k a1 w1 = Some (a1, w1, []) /\
  (forall a2 w2 ts2,
     PygameApp.handle_keyup k a1 w1 = Some (a2, w2, ts2) ->
     key_in k (PygameApp.toggle_keys_down a2) = false).
Proof.
  intros Hr Hk H.
  assert (Hws : key_in k ["w"; "s"] = false /\ key_in k ["a"; "d"] = false).
  { destruct (toggle_key_cases k Hk) as [->|[->|[->|[->|[->| ->]]]]];
      split; reflexivity. }
  destruct Hws as [Hws Had].
  assert (H1 : PygameApp.running a1 = true /\
               key_in k (PygameApp.toggle_keys_down a1) = true /\
               (key_in k (PygameApp.toggle_keys_down a) = false ->
                List.length ts1 = 1%nat)).
  { unfold PygameApp.handle_keydown in H. rewrite Hr, Hws, Had, Hk in H.
    cbn [negb] in H.
    destruct (key_in k (PygameApp.toggle_keys_down a)) eqn:Ht; cbn [negb] in H.
    - injection H as <- _ <-. repeat split; try assumption. discriminate.
    - destruct (toggle_press_step k w) as (w' & ts & Hp & _).
      rewrite Hp in H. injection H as <- _ <-. cbn.
      split; [exact Hr|]. split; [apply key_in_add_same|]. intros _.
      unfold PygameApp._handle_toggle_press in Hp.
      destruct (toggle_key_cases k Hk) as [->|[->|[->|[->|[->| ->]]]]];
        cbn in Hp;
        try match type of Hp with
            | context [PygameApp.spawn_send ?x] =>
                destruct (spawn_send_total x) as (p & _ & Hs);
                rewrite Hs in Hp
            end;
        injection Hp as _ <-; reflexivity. }
  destruct H1 as (Hr1 & Ht1 & Hlen).
  split; [exact Hlen|]. split; [exact Ht1|]. split.
  - unfold PygameApp.handle_keydown. rewrite Hr1, Hws, Had, Hk, Ht1.
    reflexivity.
  - intros a2 w2 ts2. unfold PygameApp.handle_keyup.
    destruct (key_in k (PygameApp.throttle_keys_down a1)).
    + destruct (PygameApp._update_throttle_from_keys _ w1) as [[|] w3];
        [destruct (spawn_send_total w3) as (p & _ & ->)|];
        cbn [PygameApp.set_throttle_keys PygameApp.toggle_keys_down];
        rewrite Ht1; intros [= <- _ _]; apply key_in_discard_same.
    + destruct (key_in k (PygameApp.steering_keys_down a1)).
      * destruct (PygameApp._update_steering_from_keys _ w1) as [[|] w3];
          [destruct (spawn_send_total w3) as (p & _ & ->)|];
          cbn [PygameApp.set_steering_keys PygameApp.toggle_keys_down];
          rewrite Ht1; intros [= <- _ _]; apply key_in_discard_same.
      * rewrite Ht1. intros [= <- _ _]. apply key_in_discard_same.
Qed.

Lemma X18_toggle_once_per_press_witness :
  exists a1 w1 ts1,
    PygameApp.handle_keydown "l" app_running live_world = Some (a1, w1, ts1) /\
    List.length ts1 = 1%nat /\
    lights (state (self w1)) = true /\
    PygameApp.handle_keydown "l" a1 w1 = Some (a1, w1, []).
Proof.
  do 3 eexists. split; [reflexivity|].
  match goal with
  | |- List.length ?ts = _ /\ lights (state (self ?w1)) = _ /\
       PygameApp.handle_keydown _ ?a1 _ = _ =>
      destruct (X18_toggle_once_per_press "l" app_running live_world a1 w1 ts)
        as (Hl & _ & Hd & _); [reflexivity | reflexivity | reflexivity |]
  end.
  split; [apply Hl; reflexivity|]. split; [reflexivity|exact Hd].
Defined.

(** ** Key events and the packet *)

Lemma payload_fields (s1 s2 : ControlState) :
  build_control_payload s1 = build_control_payload s2 ->
  Z.land (mode s1) 255 = Z.land (mode s2) 255 /\
  Z.sgn (throttle s1) = Z.sgn (throttle s2) /\
  Z.sgn (steering s1) = Z.sgn (steering s2) /\
  lights s1 = lights s2 /\ turbo s1 = turbo s2 /\ donut s1 = donut s2.
Proof.
  destruct (build_control_payload_bytes s1) as (b1 & Hb1 & ->).
  destruct (build_control_payload_bytes s2) as (b2 & Hb2 & ->).
  rewrite !sgn_tests.
  intros [= -> Ht1 Ht2 Hs1 Hs2 Hl Hu Hd].
  apply flag_byte_inj in Ht1, Ht2, Hs1, Hs2, Hl, Hu, Hd.
  repeat split; congruence.
Qed.

Lemma sgn_of_key_value (a b : Z) :
  a = -1 \/ a = 0 \/ a = 1 -> b = -1 \/ b = 0 \/ b = 1 ->
  Z.sgn a = Z.sgn b -> a = b.
Proof. intros [->|[->| ->]] [->|[->| ->]]; cbn; congruence. Qed.

Lemma update_throttle_cases (a : PygameApp.t) (w : World) :
  PygameApp._update_throttle_from_keys a w = (false, w) \/
  exists w1,
    PygameApp._update_throttle_from_keys a w = (true, w1) /\
    (command_ok (state (self w)) ->
     build_control_payload (state (self w1)) <>
       build_control_payload (state (self w))).
Proof.
  unfold PygameApp._update_throttle_from_keys.
  match goal with |- context [negb (?v =? _)] => set (nv := v) end.
  assert (Hv : nv = -1 \/ nv = 0 \/ nv = 1).
  { subst nv. repeat match goal with
                     | |- context [if ?c then _ else _] => destruct c
                     end; auto. }
  clearbody nv.
  destruct (nv =? throttle (state (self w))) eqn:E; cbn [negb];
    [left; reflexivity|].
  right. eexists. split; [reflexivity|]. intros (Ht & _ & _) Hp.
  apply payload_fields in Hp. destruct Hp as (_ & Hp & _). cbn in Hp.
  apply Z.eqb_neq in E. apply E. apply sgn_of_key_value; assumption.
Qed.

Lemma update_steering_cases (a : PygameApp.t) (w : World) :
  PygameApp._update_steering_from_keys a w = (false, w) \/
  exists w1,
    PygameApp._update_steering_from_keys a w = (true, w1) /\
    (command_ok (state (self w)) ->
     build_control_payload (state (self w1)) <>
       build_control_payload (state (self w))).
Proof.
  unfold PygameApp._update_steering_from_keys.
  match goal with |- context [negb (?v =? _)] => set (nv := v) end.
  assert (Hv : nv = -1 \/ nv = 0 \/ nv = 1).
  { subst nv. repeat match goal with
                     | |- context [if ?c then _ else _] => destruct c
                     end; auto. }
  clearbody nv.
  destruct (nv =? steering (state (self w))) eqn:E; cbn [negb];
    [left; reflexivity|].
  right. eexists. split; [reflexivity|]. intros (_ & Hs & _) Hp.
  apply payload_fields in Hp. destruct Hp as (_ & _ & Hp & _). cbn in Hp.
  apply Z.eqb_neq in E. apply E. apply sgn_of_key_value; assumption.
Qed.

Lemma sends_packet_nil (w : World) : sends_packet w w [].
Proof. left. split; [reflexivity|]. left. reflexivity. Qed.

Lemma sends_packet_changed (w w1 : World) (p : bytes) :
  build_control_payload (state (self w1)) = Some p ->
  (command_ok (state (self w)) ->
   build_control_payload (state (self w1)) <>
     build_control_payload (state (self w))) ->
  sends_packet w w1 [Spawn_send_control p].
Proof.
  intros Hb Hne. right. exists p. split; [reflexivity|]. split; [exact Hb|].
  intros Hc Hp. apply (Hne Hc). congruence.
Qed.

Lemma toggle_press_sends (key_name : string) (w w' : World)
    (ts : list Spawned) :
  PygameApp._handle_toggle_press key_name w = Some (w', ts) ->
  sends_packet w w' ts.
Proof.
  unfold PygameApp._handle_toggle_press.
  repeat match goal with
         | |- context [if String.eqb key_name ?k then _ else _] =>
             destruct (String.eqb key_name k)
         end.
  all: try match goal with
           | |- context [PygameApp.spawn_send ?x] =>
               let Hb := fresh "Hb" in
               destruct (spawn_send_total x) as (p & Hb & ->)
           end.
  all: cbn [fst snd]; intros [= <- <-].
  all: try (apply sends_packet_changed; [assumption|];
            intros (_ & _ & Hm) Hp; apply payload_fields in Hp;
            cbn in Hp; destruct Hp as (Hp & _ & _ & Hl & Ht & Hd)).
  - destruct (lights (state (self w))); discriminate Hl.
  - destruct (turbo (state (self w))); discriminate Ht.
  - destruct (donut (state (self w))); discriminate Hd.
  - destruct Hm as [Hm|Hm]; rewrite Hm in Hp; discriminate Hp.
  - left. split; [reflexivity|]. right. left. reflexivity.
  - left. split; [reflexivity|]. right. right. reflexivity.
  - apply sends_packet_nil.
Qed.

Ltac open_cases :=
  match goal with
  | |- context [PygameApp._update_throttle_from_keys ?a ?w] =>
      let E := fresh "E" in
      let Hne := fresh "Hne" in
      let w1 := fresh "w1" in
      destruct (update_throttle_cases a w) as [E|(w1 & E & Hne)]; rewrite E
  | |- context [PygameApp._update_steering_from_keys ?a ?w] =>
      let E := fresh "E" in
      let Hne := fresh "Hne" in
      let w1 := fresh "w1" in
      destruct (update_steering_cases a w) as [E|(w1 & E & Hne)]; rewrite E
  end.

Ltac open_send :=
  match goal with
  | |- context [PygameApp.spawn_send ?x] =>
      let p := fresh "p" in
      let Hb := fresh "Hb" in
      destruct (spawn_send_total x) as (p & Hb & ->)
  end.

Lemma handle_keydown_sends (key_name : string) (a : PygameApp.t) (w : World)
    (a' : PygameApp.t) (w' : World) (ts : list Spawned) :
  PygameApp.handle_keydown key_name a w = Some (a', w', ts) ->
  sends_packet w w' ts.
Proof.
  unfold PygameApp.handle_keydown.
  destruct (negb (PygameApp.running a));
    [intros [= _ <- <-]; apply sends_packet_nil|].
  destruct (key_in key_name ["w"; "s"]).
  { open_cases; [intros [= _ <- <-]; apply sends_packet_nil|].
    open_send. intros [= _ <- <-]. apply sends_packet_changed; assumption. }
  destruct (key_in key_name ["a"; "d"]).
  { open_cases; [intros [= _ <- <-]; apply sends_packet_nil|].
    open_send. intros [= _ <- <-]. apply sends_packet_changed; assumption. }
  destruct (key_in key_name ["l"; "t"; "o"; "m"; "b"; "q"]);
    [|intros [= _ <- <-]; apply sends_packet_nil].
  destruct (negb (key_in key_name (PygameApp.toggle_keys_down a)));
    [|intros [= _ <- <-]; apply sends_packet_nil].
  destruct (PygameApp._handle_toggle_press key_name w) as [[w1 ts1]|] eqn:E;
    [|discriminate].
  cbn [fst snd]. intros [= _ <- <-]. exact (toggle_press_sends _ _ _ _ E).
Qed.

Lemma handle_keyup_sends (key_name : string) (a : PygameApp.t) (w : World)
    (a' : PygameApp.t) (w' : World) (ts : list Spawned) :
  PygameApp.handle_keyup key_name a w = Some (a', w', ts) ->
  sends_packet w w' ts.
Proof.
  unfold PygameApp.handle_keyup.
  destruct (key_in key_name (PygameApp.throttle_keys_down a)).
  { open_cases; [|open_send];
      match goal with
      | |- context [key_in key_name (PygameApp.toggle_keys_down ?x)] =>
          destruct (key_in key_name (PygameApp.toggle_keys_down x))
      end; intros [= _ <- <-];
      first [apply sends_packet_nil | apply sends_packet_changed; assumption]. }
  destruct (key_in key_name (PygameApp.steering_keys_down a)).
  { open_cases; [|open_send];
      match goal with
      | |- context [key_in key_name (PygameApp.toggle_keys_down ?x)] =>
          destruct (key_in key_name (PygameApp.toggle_keys_down x))
      end; intros [= _ <- <-];
      first [apply sends_packet_nil | apply sends_packet_changed; assumption]. }
  destruct (key_in key_name (PygameApp.toggle_keys_down a));
    intros [= _ <- <-]; apply sends_packet_nil.
Qed.

(** X19: on a command the keyboard can produce, a key event creates a
    send task exactly when it changes the packet: after a key-down or a
    key-up either the packet is the one before and no send task was created,
    or exactly one send task was created, and it carries the packet of the
    new state, which differs from the one before. *)
Theorem X19_send_on_packet_change
    (down : bool) (key_name : string) (a : PygameApp.t) (w : World)
    (a' : PygameApp.t) (w' : World) (ts : list Spawned) :
  command_ok (state (self w)) ->
  (if down then PygameApp.handle_keydown key_name a w
   else PygameApp.handle_keyup key_name a w) = Some (a', w', ts) ->
  sends_on_change w w' ts.
Proof.
  intros Hc H.
  assert (Hs : sends_packet w w' ts).
  { destruct down;
      [exact (handle_keydown_sends _ _ _ _ _ _ H)
      |exact (handle_keyup_sends _ _ _ _ _ _ H)]. }
  destruct Hs as [[Hs Ht]|(p & Ht & Hb & Hne)].
  { left. split; [exact Hs|]. intros p Hp.
    destruct Ht as [->|[->| ->]]; cbn in Hp; intuition discriminate. }
  right. exists p. split; [exact Ht|]. split; [exact Hb|]. exact (Hne Hc).
Qed.

Lemma X19_send_on_packet_change_witness :
  let a1 := PygameApp.set_throttle_keys ["w"] (Some "w") app_running in
  let w1 := with_state (fun st => set_message "Forward" (set_throttle 1 st))
              live_world in
  let p := [x01; x01; x00; x00; x00; x00; x00; x00]%byte in
  PygameApp.handle_keydown "w" app_running live_world
    = Some (a1, w1, [Spawn_send_control p]) /\
  sends_on_change live_world w1 [Spawn_send_control p] /\
  PygameApp.handle_keydown "w" a1 w1 = Some (a1, w1, []) /\
  sends_on_change w1 w1 [].
Proof.
  intros a1 w1 p.
  split; [reflexivity|]. split; [|split; [reflexivity|]].
  - apply (X19_send_on_packet_change true "w" app_running live_world a1);
      [unfold command_ok; cbn; auto 10 | reflexivity].
  - apply (X19_send_on_packet_change true "w" a1 w1 a1);
      [unfold command_ok; cbn; auto 10 | reflexivity].
Defined.

(** ** The front end and the controller together *)

Lemma sync_kept_refl (w : World) : sync_kept w w.
Proof. repeat split. Qed.

Lemma sync_kept_trans (w1 w2 w3 : World) :
  sync_kept w1 w2 -> sync_kept w2 w3 -> sync_kept w1 w3.
Proof.
  intros (A1 & A2 & A3 & A4 & A5 & A6) (B1 & B2 & B3 & B4 & B5 & B6).
  repeat split; congruence.
Qed.

Lemma Keeps_sync_await (env : Env) (c : Call) : Keeps sync_kept (await env c).
Proof. intros w. unfold await. destruct (reply env _ _); repeat split. Qed.

Lemma Keeps_sync_queue_ui (item : QueueItem) : Keeps sync_kept (_queue_ui item).
Proof.
  intros w.
  destruct (queue_ui_fields item w) as (Fc & Fp & Fl & Fs & Fk & Fst & _).
  cbv zeta in *. unfold sync_kept. rewrite Fst. auto 10.
Qed.

Ltac sync :=
  repeat first
    [ apply Keeps_sync_await | apply Keeps_sync_queue_ui
    | match goal with
      | |- Keeps sync_kept (assign _) => intros ?; repeat split
      end
    | keeps_step sync_kept_refl sync_kept_trans ].

Lemma Keeps_sync_disable_notifications (env : Env) :
  Keeps sync_kept (_disable_notifications env).
Proof. unfold _disable_notifications. sync. Qed.

Lemma Keeps_sync_read_battery (env : Env) (c : BleakClient) :
  Keeps sync_kept (_read_battery env c).
Proof. unfold _read_battery. sync. Qed.

Lemma Keeps_sync_request_battery (env : Env) :
  Keeps sync_kept (request_battery env).
Proof. unfold request_battery. sync. Qed.

Lemma sync_kept_ready (w w' : World) : sync_kept w w' -> ready w -> ready w'.
Proof.
  intros (_ & _ & _ & Hc & Hs & Hl) ((c & Hc') & Hs' & Hl').
  unfold ready, lock_free in *. rewrite Hc, Hs, Hl. eauto.
Qed.

Lemma sync_kept_in_sync (w w' : World) :
  sync_kept w w' -> in_sync w -> in_sync w'.
Proof.
  intros (Hp & Hl & Hb & _) [Ip Il]. unfold in_sync.
  rewrite Hp, Hl, Hb. auto.
Qed.

Lemma set_last_payload_same (st : ControlState) :
  set_last_payload (last_payload st) st = st.
Proof. destruct st. reflexivity. Qed.

(** On a ready controller whose writes return, [send_control] always
    leaves the payload recorded as sent and nothing waiting. *)
Lemma send_control_ready (env : Env) (w : World) (p : bytes) :
  writes_return env -> ready w ->
  let w' := snd (send_control env p w) in
  fst (send_control env p w) = Ret tt /\
  _pending_payload (self w') = None /\
  _last_sent_payload (self w') = Some p /\
  build_control_payload (state (self w')) =
    build_control_payload (state (self w)) /\
  ready w'.
Proof.
  intros Hw ((c & Hc) & Hs & Hl). cbv zeta.
  destruct (eq_optional p (_last_sent_payload (self w))
            && is_none (_pending_payload (self w))) eqn:E.
  - assert (Hsame : send_control env p w = (Ret tt, w)).
    { unfold send_control, bind, get_self, ret. rewrite Hs, E. reflexivity. }
    rewrite Hsame. cbn [fst snd].
    apply andb_true_iff in E. destruct E as [E1 E2].
    split; [reflexivity|]. split.
    { destruct (_pending_payload (self w)); [discriminate E2|reflexivity]. }
    split.
    { destruct (_last_sent_payload (self w)) as [l|]; [|discriminate E1].
      apply bytes_eqb_eq in E1. congruence. }
    split; [reflexivity|]. unfold ready. eauto.
  - assert (Hn : _last_sent_payload (self w) <> Some p \/
                 _pending_payload (self w) <> None).
    { destruct (_pending_payload (self w)); [right; discriminate|]. left.
      intros Hl'. rewrite Hl' in E. cbn in E. rewrite bytes_eqb_refl in E.
      discriminate E. }
    rewrite (send_control_live env w c p Hs Hc Hn).
    set (w1 := {| self := set_pending_payload (Some p) (self w);
                  trace := trace w |}).
    rewrite (write_pending_some env w1 c p) by (try reflexivity; assumption).
    destruct (Hw (List.length (trace w1)) p) as [d ->].
    pose proof (queue_ui_fields ("payload", DBytes p) (recorded p w1))
      as (Fc & Fp & Fl & Fs & Fk & Fst & _ & _).
    cbv zeta in Fc, Fp, Fl, Fs, Fk, Fst.
    rewrite queue_ui_returns.
    unfold ready, lock_free. rewrite Fc, Fp, Fl, Fs, Fk, Fst.
    cbn. split; [reflexivity|]. split; [reflexivity|].
    split; [reflexivity|]. split; [reflexivity|]. eauto.
Qed.

Lemma stop_keeps_sync (env : Env) (w : World) :
  let w' := snd (stop env w) in
  _pending_payload (self w') = _pending_payload (self w) /\
  _last_sent_payload (self w') = _last_sent_payload (self w) /\
  build_control_payload (state (self w')) =
    build_control_payload (state (self w)).
Proof.
  cbv zeta. unfold stop, bind, get_self, assign.
  destruct (_stopped (self w)); [repeat split|]. cbn [fst snd].
  match goal with
  | |- context [_disable_notifications env ?x] =>
      destruct (Keeps_sync_disable_notifications env x) as (A & B & C & _)
  end.
  rewrite A, B, C. repeat split.
Qed.

(** What [shutdown] of a running application does on a ready controller. *)
Lemma shutdown_outcome (env : Env) (a : PygameApp.t) (w : World) :
  PygameApp.running a = true -> writes_return env -> ready w ->
  let w' := snd (snd (PygameApp.shutdown env a) w) in
  throttle (state (self w')) = 0 /\
  steering (state (self w')) = 0 /\
  in_sync w' /\
  _stopped (self w') = true /\ _stop_event (self w') = true.
Proof.
  intros Hr Hw Hready. cbv zeta.
  unfold PygameApp.shutdown. rewrite Hr. cbn [negb snd].
  set (w0 := with_state (set_steering 0) (with_state (set_throttle 0) w)).
  destruct (build_control_payload_bytes (state (self w0))) as (b0 & _ & Hb).
  match type of Hb with _ = Some ?l => set (p := l) in * end.
  assert (E : forall m : bytes -> Task unit,
            bind (fun w => (Ret tt, with_state (set_throttle 0) w)) (fun _ =>
            bind (fun w => (Ret tt, with_state (set_steering 0) w)) (fun _ =>
            bind get_self (fun s =>
            bind (lift "ValueError" (build_control_payload (state s))) m))) w
            = m p w0).
  { intros m. unfold bind at 1 2 3 4. unfold get_self, lift. cbn [fst snd].
    fold w0. rewrite Hb. reflexivity. }
  rewrite (E (fun payload => bind (send_control env payload)
                               (fun _ => stop env))).
  clearbody p. clear E.
  assert (Hr0 : ready w0) by exact Hready.
  destruct (send_control_ready env w0 p Hw Hr0) as (R & Sp & Sl & Sb & Sr).
  unfold bind.
  destruct (send_control env p w0) as [r w1]. cbn [fst snd] in *. subst r.
  destruct (stop_keeps_sync env w1) as (Kp & Kl & Kb).
  pose proof (stop_sets_stopped env w1) as Hst.
  assert (Hev : _stop_event (self (snd (stop env w1))) = true).
  { apply stop_sets_event. intros Hs.
    destruct Sr as (_ & Hs' & _). congruence. }
  destruct (stop env w1) as [r2 w2]. cbn [fst snd] in *.
  assert (Hf : build_control_payload (state (self w2)) =
               build_control_payload (state (self w0))) by congruence.
  apply payload_fields in Hf. destruct Hf as (_ & Ht & Hs & _).
  cbn in Ht, Hs. apply (proj1 (Z.sgn_null_iff _)) in Ht, Hs.
  split; [exact Ht|]. split; [exact Hs|]. split; [|auto].
  unfold in_sync. split; [congruence|].
  rewrite Kl, Sl, Kb, Sb, Hb. reflexivity.
Qed.



Lemma command_step_fields (w w' : World) :
  command_step w w' ->
  _pending_payload (self w') = _pending_payload (self w) /\
  _last_sent_payload (self w') = _last_sent_payload (self w) /\
  (ready w -> ready w').
Proof.
  intros (st' & -> & _). split; [reflexivity|]. split; [reflexivity|].
  intros H. exact H.
Qed.

Lemma run_shutdown_eq (env : Env) (a : PygameApp.t) (w : World) :
  snd (PygameApp.run_spawned env Spawn_shutdown a w) =
    snd (snd (PygameApp.shutdown env a) w).
Proof.
  unfold PygameApp.run_spawned.
  destruct (PygameApp.shutdown env a) as [x m]. reflexivity.
Qed.

Lemma run_one_spawned (env : Env) (s : Spawned) (a : PygameApp.t) (w : World) :
  snd (PygameApp.run_all_spawned env [s] a w) =
    snd (PygameApp.run_spawned env s a w).
Proof.
  cbn [PygameApp.run_all_spawned].
  destruct (PygameApp.run_spawned env s a w) as [a1 w1]. reflexivity.
Qed.


